(** * prefect.logging.configuration: loading and applying the logging configuration

    A shallow embedding of [src/prefect/logging/configuration.py]:
    [to_envvar], [interpolated_settings], [load_logging_config] and
    [setup_logging], with the properties stated about them.

    Conventions of the embedding.
    - Python [str] is [string]; the development covers ASCII text
      ([str.upper] acts on [a-z], [\w] is [[a-zA-Z0-9_]]); Python's Unicode
      tables are not part of it.
    - The values [yaml.safe_load] produces are the type [value]; a Python
      [dict] is an association list in insertion order whose keys are
      strings and pairwise distinct ([wf_dict]); floats are left out.
    - The operating system, PyYAML and the [logging] package are the
      fields of the record [host]; the settings object is the record
      [LoggingSettings].
    - [dict_to_flatdict] and [flatdict_to_dict] are imported from
      [prefect.utilities.collections]; they are modelled from the
      specification.
    - A call returns an [outcome] (normal return or the exception raised)
      together with the [world] it leaves behind. *)

From Stdlib Require Import Ascii String ZArith Bool.
From stdpp Require Import base option list strings gmap.

Local Open Scope string_scope.
Local Open Scope list_scope.

(** ** Text *)

Module Text.

Definition code (c : ascii) : nat := nat_of_ascii c.

Definition between (lo hi n : nat) : bool := Nat.leb lo n && Nat.leb n hi.

Definition is_digit (c : ascii) : bool := between 48 57 (code c).
Definition is_lower (c : ascii) : bool := between 97 122 (code c).
Definition is_upper (c : ascii) : bool := between 65 90 (code c).

(** The class [[0-9a-zA-Z]]: the complement of the class in [to_envvar]. *)
Definition is_alnum (c : ascii) : bool := is_digit c || is_lower c || is_upper c.

(** The class [[\w\d_]] of [interpolated_settings]. *)
Definition is_word (c : ascii) : bool := is_alnum c || Ascii.eqb c "_".

Definition upper_char (c : ascii) : ascii :=
  if is_lower c then ascii_of_nat (code c - 32) else c.

(** [str.upper]. *)
Fixpoint upper (s : string) : string :=
  match s with
  | EmptyString => EmptyString
  | String c s' => String (upper_char c) (upper s')
  end.

(** [sep.join(parts)]. *)
Fixpoint join (sep : string) (parts : list string) : string :=
  match parts with
  | [] => EmptyString
  | [p] => p
  | p :: rest => p +:+ sep +:+ join sep rest
  end.

(** [s.startswith(p)]. *)
Definition startswith (p s : string) : bool := String.prefix p s.

(** [span f s]: the longest prefix of [s] whose characters satisfy [f],
    and the rest. *)
Fixpoint span (f : ascii -> bool) (s : string) : string * string :=
  match s with
  | EmptyString => (EmptyString, EmptyString)
  | String c s' =>
      if f c then let '(a, b) := span f s' in (String c a, b)
      else (EmptyString, s)
  end.

Definition newline : string := String (ascii_of_nat 10) EmptyString.

End Text.

(** ** The two regular expressions of the module *)

(** [re.sub(re.compile(r"[^0-9a-zA-Z]+"), "_", s)], one pass from left to
    right: a character of [[0-9a-zA-Z]] is copied; the first character of a
    run outside the class writes the single ["_"] that replaces the run
    (the [+] is greedy, so the match takes the whole run), the other
    characters of the run write nothing.  [in_run] tells whether the
    previous character belonged to such a run. *)
Fixpoint to_envvar_from (in_run : bool) (s : string) : string :=
  match s with
  | EmptyString => EmptyString
  | String c s' =>
      if Text.is_alnum c then String c (to_envvar_from false s')
      else if in_run then to_envvar_from true s'
      else String "_" (to_envvar_from true s')
  end.

Definition to_envvar (s : string) : string := to_envvar_from false s.

(** [interpolated_settings.match(val)] for
    [interpolated_settings = re.compile(r"^{{([\w\d_]+)}}$")]; the result
    is [group(1)] of the match.  After the two braces the group takes the
    longest run of word characters (no word character can start the
    closing braces, so no shorter choice matches), which must not be empty;
    then come the closing braces and [$].  Without [re.MULTILINE], [$]
    matches at the end of the string and also just before a newline that
    is the last character of the string. *)
Definition interpolated_settings (val : string) : option string :=
  match val with
  | String "{" (String "{" rest) =>
      let '(name, tail) := Text.span Text.is_word rest in
      if String.eqb name EmptyString then None
      else if String.eqb tail "}}" || String.eqb tail ("}}" +:+ Text.newline)
           then Some name
           else None
  | _ => None
  end.

(** ** Values *)

(** What [yaml.safe_load] and an attribute lookup can hand to the module.
    [VObject] stands for any other Python object (a [Path], a bound
    method), known by its identity only. *)
#[local] Unset Elimination Schemes.
Inductive value : Type :=
  | VNone
  | VBool (b : bool)
  | VInt (n : Z)
  | VStr (s : string)
  | VList (items : list value)
  | VDict (entries : list (string * value))
  | VObject (id : nat).
#[local] Set Elimination Schemes.

Abbreviation dict := (list (string * value)).

(** A tuple of keys, the path from the root to a value, and a flattened
    dictionary: a [dict] whose keys are such tuples. *)
Abbreviation key_tuple := (list string).
Abbreviation flatdict := (list (key_tuple * value)).

(** Induction on a value, with the property at hand for the items of a
    list and for the values of a dictionary. *)
Section value_induction.
Variable P : value -> Prop.
Hypothesis PNone : P VNone.
Hypothesis PBool : forall b, P (VBool b).
Hypothesis PInt : forall n, P (VInt n).
Hypothesis PStr : forall s, P (VStr s).
Hypothesis PList : forall items, Forall P items -> P (VList items).
Hypothesis PDict : forall d, Forall (fun e => P e.2) d -> P (VDict d).
Hypothesis PObject : forall id, P (VObject id).

Fixpoint value_ind (v : value) : P v :=
  match v with
  | VNone => PNone
  | VBool b => PBool b
  | VInt n => PInt n
  | VStr s => PStr s
  | VList items =>
      PList items
        ((fix all (l : list value) : Forall P l :=
            match l with
            | [] => List.Forall_nil P
            | x :: l' => List.Forall_cons P x l' (value_ind x) (all l')
            end) items)
  | VDict d =>
      PDict d
        ((fix all (l : list (string * value)) : Forall (fun e => P e.2) l :=
            match l with
            | [] => List.Forall_nil _
            | (k, x) :: l' =>
                List.Forall_cons (fun e => P e.2) (k, x) l'
                                 (value_ind x) (all l')
            end) d)
  | VObject id => PObject id
  end.
End value_induction.

(** Python's [dict] operations on an association list kept in insertion
    order. *)
Section assoc.
Context {K A : Type} `{EqDecision K}.

(** [d.get(k)]; [None] where [d[k]] raises [KeyError]. *)
Fixpoint dict_get (k : K) (d : list (K * A)) : option A :=
  match d with
  | [] => None
  | (k', v) :: d' => if decide (k' = k) then Some v else dict_get k d'
  end.

(** [d[k] = v]: an existing key keeps its place, a new key goes last. *)
Fixpoint dict_set (k : K) (v : A) (d : list (K * A)) : list (K * A) :=
  match d with
  | [] => [(k, v)]
  | (k', v') :: d' =>
      if decide (k' = k) then (k', v) :: d' else (k', v') :: dict_set k v d'
  end.

Definition keys (d : list (K * A)) : list K := fst <$> d.

(** The keys of a Python dictionary are pairwise distinct. *)
Definition distinct_keys (d : list (K * A)) : bool := bool_decide (NoDup (keys d)).
End assoc.

(** Every dictionary inside the value has pairwise distinct keys. *)
Fixpoint wf_value (v : value) : bool :=
  match v with
  | VList items => forallb wf_value items
  | VDict d => distinct_keys d && forallb (fun '(_, x) => wf_value x) d
  | _ => true
  end.

Definition wf_dict (d : dict) : bool := wf_value (VDict d).

(** Python's [a == b] on these values: [bool] is a subclass of [int]
    ([True == 1]); lists are compared element by element; dictionaries are
    equal when they have the same number of keys and every key of the
    first is a key of the second with an equal value, whatever the order;
    an object without [__eq__] is equal to itself only. *)
Fixpoint py_eq (a b : value) : bool :=
  match a, b with
  | VNone, VNone => true
  | VBool x, VBool y => Bool.eqb x y
  | VBool x, VInt n => Z.eqb (Z.b2z x) n
  | VInt n, VBool x => Z.eqb n (Z.b2z x)
  | VInt m, VInt n => Z.eqb m n
  | VStr s, VStr t => String.eqb s t
  | VList xs, VList ys =>
      (fix all2 (xs ys : list value) : bool :=
         match xs, ys with
         | [], [] => true
         | x :: xs', y :: ys' => py_eq x y && all2 xs' ys'
         | _, _ => false
         end) xs ys
  | VDict d, VDict e =>
      Nat.eqb (length d) (length e)
      && forallb (fun '(k, x) =>
                    match dict_get k e with
                    | Some y => py_eq x y
                    | None => false
                    end) d
  | VObject i, VObject j => Nat.eqb i j
  | _, _ => false
  end.

(** [bool(x)] for the module-level variable: [None] and the empty
    dictionary are false. *)
Definition truthy (x : option dict) : bool :=
  match x with
  | Some (_ :: _) => true
  | _ => false
  end.

(** ** prefect.utilities.collections *)

(** A value with entries below it: a dictionary that is not empty.  Every
    other value, the empty dictionary too, has nothing below it and is a
    leaf of the tree. *)
Definition is_branch (v : value) : bool :=
  match v with
  | VDict (_ :: _) => true
  | _ => false
  end.

Definition under (k : string) (e : key_tuple * value) : key_tuple * value :=
  (k :: e.1, e.2).

(** The leaves below [v] with their paths from [v]. *)
Fixpoint leaves (v : value) : flatdict :=
  match v with
  | VDict ((_ :: _) as d) =>
      flat_map (fun '(k, x) => map (under k) (leaves x)) d
  | _ => [([], v)]
  end.

(** Modelled from the spec: [dict_to_flatdict] is imported from
    [prefect.utilities.collections], which is not among the sources.  The
    specification has it convert a nested mapping into a flat mapping
    keyed by path tuples, one entry per leaf, the key being the path from
    the root to the leaf. *)
Definition dict_to_flatdict (d : dict) : flatdict :=
  flat_map (fun '(k, x) => map (under k) (leaves x)) d.

(** [set_path path v d]: the nested dictionary [d] with [v] stored at
    [path], the dictionaries on the way created where they are missing.
    There is no result for an empty path, nor when the way leads through a
    value that is not a dictionary. *)
Fixpoint set_path (path : key_tuple) (v : value) (d : dict) : option dict :=
  match path with
  | [] => None
  | [k] => Some (dict_set k v d)
  | k :: rest =>
      match dict_get k d with
      | None => sub ← set_path rest v []; Some (dict_set k (VDict sub) d)
      | Some (VDict sub0) =>
          sub ← set_path rest v sub0; Some (dict_set k (VDict sub) d)
      | Some _ => None
      end
  end.

(** The entries of [fd] put one after the other into the dictionary
    [acc]. *)
Definition put_all (acc : option dict) (fd : flatdict) : option dict :=
  foldl (fun acc e => d ← acc; set_path e.1 e.2 d) acc fd.

(** Modelled from the spec: [flatdict_to_dict] is imported from
    [prefect.utilities.collections], which is not among the sources.  The
    specification has it reassemble the nested mapping from the flat one,
    as the inverse of flattening; the entries are put back one by one in
    the order of the flat mapping. *)
Definition flatdict_to_dict (fd : flatdict) : option dict :=
  put_all (Some []) fd.

(** ** The settings object, the host and the state of the process *)

(** What the module reads from a [LoggingSettings] object. *)
Record LoggingSettings : Type := {
  env_prefix : string;                (* settings.Config.env_prefix *)
  settings_path : string;             (* settings.settings_path *)
  attribute : string -> option value; (* the attribute of that name, if any *)
  get_extra_loggers : list string;    (* settings.get_extra_loggers() *)
}.

(** [getattr(settings, name, None)]. *)
Definition getattr (settings : LoggingSettings) (name : string) : value :=
  default VNone (attribute settings name).

(** A [logging.Logger]: handlers are objects known by their identity. *)
Record logger : Type := {
  handlers : list nat;
  level : Z;
  propagate : bool;
}.

Definition NOTSET : Z := 0.

(** The logger [logging.getLogger] creates for a name it sees for the
    first time. *)
Definition fresh_logger : logger :=
  {| handlers := []; level := NOTSET; propagate := true |}.

(** What the module uses of its surroundings. *)
Record host : Type := {
  (* the text of the file at a path, if there is one *)
  files : string -> option string;
  (* os.environ.get *)
  environ : string -> option string;
  (* yaml.safe_load; no result where it raises yaml.YAMLError *)
  safe_load : string -> option value;
  (* logging.config.dictConfig on the logger registry: whether it returned
     normally, and the registry it leaves *)
  dictConfig : dict -> gmap string logger -> bool * gmap string logger;
  (* Path(__file__).parent / "logging.yml" *)
  DEFAULT_LOGGING_SETTINGS_PATH : string;
}.

(** The exceptions that leave the module.  The first two carry the names
    of the specification's taxonomy. *)
Inductive exn : Type :=
  (* FileNotFoundError, raised by Path.read_text *)
  | NotFoundError
  (* yaml.YAMLError, raised by yaml.safe_load; also the rejection of a
     parsed value that is not a mapping *)
  | ParseError
  (* a flat mapping that cannot be reassembled *)
  | TypeError
  (* PROCESS_LOGGING_CONFIG[key] for a missing key *)
  | KeyError (key : string)
  (* raised by logging.config.dictConfig *)
  | ValueError.

Inductive outcome : Type :=
  | Returned
  | Raised (e : exn).

(** The state the module reads and writes.  [warnings.warn] is taken
    under the default warning filters, where it reports and returns. *)
Record world : Type := {
  (* the module-level variable; [None] is Python's None *)
  PROCESS_LOGGING_CONFIG : option dict;
  (* the loggers of the logging package, by name *)
  loggers : gmap string logger;
  (* the [config_diff] of every warning emitted so far, oldest first *)
  warned : list dict;
  (* the argument of every call of logging.config.dictConfig so far *)
  configured : list dict;
}.

(** ** load_logging_config *)

(** The name of the environment variable that overrides the entry at
    [key_tup] (lines 38-41). *)
Definition env_name (settings : LoggingSettings) (key_tup : key_tuple) : string :=
  to_envvar (Text.upper (env_prefix settings +:+ Text.join "_" key_tup)).

(** Lines 38-43: [if env_val: val = env_val]; an unset and an empty
    variable leave [val] as it is. *)
Definition env_override (H : host) (settings : LoggingSettings)
    (key_tup : key_tuple) (val : value) : value :=
  match environ H (env_name settings key_tup) with
  | Some env_val => if String.eqb env_val EmptyString then val else VStr env_val
  | None => val
  end.

(** Lines 47-55. *)
Definition interpolate (settings : LoggingSettings) (val : value) : value :=
  match val with
  | VStr s =>
      if Text.startswith "{{" s then
        match interpolated_settings s with
        | Some matched_key => getattr settings matched_key
        | None => val
        end
      else val
  | _ => val
  end.

(** The body of the loop, lines 36-58: the value stored back at
    [key_tup]. *)
Definition resolve (H : host) (settings : LoggingSettings)
    (key_tup : key_tuple) (val : value) : value :=
  interpolate settings (env_override H settings key_tup val).

(** The loop of lines 35-58: the entries of [flat_config] are visited in
    order and each assignment [flat_config[key_tup] = val] updates the
    dictionary being iterated. *)
Definition resolve_all (H : host) (settings : LoggingSettings)
    (flat_config : flatdict) : flatdict :=
  foldl (fun fc e => dict_set e.1 (resolve H settings e.1 e.2) fc)
        flat_config flat_config.

Definition read_text (H : host) (path : string) : exn + string :=
  match files H path with
  | Some text => inr text
  | None => inl NotFoundError
  end.

(** Modelled from the spec: what [dict_to_flatdict] does with a parsed
    value that is not a mapping is decided in
    [prefect.utilities.collections], which is not among the sources.  The
    specification has the load fail with [ParseError] when the content is
    not a valid mapping-shaped serialization. *)
Definition as_mapping (config : value) : exn + dict :=
  match config with
  | VDict d => inr d
  | _ => inl ParseError
  end.

(** Lines 26-60. *)
Definition load_logging_config (H : host) (path : string)
    (settings : LoggingSettings) : exn + dict :=
  match read_text H path with
  | inl e => inl e
  | inr text =>
      match safe_load H text with
      | None => inl ParseError
      | Some config =>
          match as_mapping config with
          | inl e => inl e
          | inr config =>
              let flat_config := dict_to_flatdict config in
              match flatdict_to_dict (resolve_all H settings flat_config) with
              | Some d => inr d
              | None => inl TypeError
              end
          end
      end
  end.

(** ** setup_logging *)

Definition path_exists (H : host) (path : string) : bool :=
  bool_decide (is_Some (files H path)).

(** Lines 79-83: the entries of the new configuration whose value differs
    from the stored one; [PROCESS_LOGGING_CONFIG[key]] raises [KeyError]
    for a key the stored configuration does not have. *)
Fixpoint config_diff (stored config : dict) : exn + dict :=
  match config with
  | [] => inr []
  | (key, value) :: rest =>
      match dict_get key stored with
      | None => inl (KeyError key)
      | Some old =>
          match config_diff stored rest with
          | inl e => inl e
          | inr diff =>
              inr (if py_eq old value then diff else (key, value) :: diff)
          end
      end
  end.

Definition warn (config_diff : dict) (w : world) : world :=
  {| PROCESS_LOGGING_CONFIG := PROCESS_LOGGING_CONFIG w;
     loggers := loggers w;
     warned := warned w ++ [config_diff];
     configured := configured w |}.

(** [logging.getLogger(name)] as a reading of the registry: the logger of
    that name, created on first use.  Loggers are told apart by their
    names; the root logger, which answers to two names, has no part of its
    own here. *)
Definition getLogger (name : string) (reg : gmap string logger) : logger :=
  default fresh_logger (reg !! name).

(** [logger.addHandler(handler)]: a handler already attached is not
    attached again. *)
Definition addHandler (handler : nat) (l : logger) : logger :=
  {| handlers := if bool_decide (handler ∈ handlers l) then handlers l
                 else handlers l ++ [handler];
     level := level l;
     propagate := propagate l |}.

Definition setLevel (lvl : Z) (l : logger) : logger :=
  {| handlers := handlers l; level := lvl; propagate := propagate l |}.

Definition set_propagate (p : bool) (l : logger) : logger :=
  {| handlers := handlers l; level := level l; propagate := p |}.

(** Lines 100-103, the body of the inner loop for one handler of the
    'prefect.extra' logger.  Both loggers are read from the registry at
    each use, since [logger_name] may be 'prefect.extra' itself. *)
Definition copy_handler (logger_name : string) (handler : nat)
    (reg : gmap string logger) : gmap string logger :=
  let reg := <[logger_name := addHandler handler (getLogger logger_name reg)]> reg in
  let reg :=
    if Z.eqb (level (getLogger logger_name reg)) NOTSET
    then <[logger_name := setLevel (level (getLogger "prefect.extra" reg))
                                   (getLogger logger_name reg)]> reg
    else reg in
  <[logger_name := set_propagate (propagate (getLogger "prefect.extra" reg))
                                 (getLogger logger_name reg)]> reg.

(** Lines 98-103 for one name: [logging.getLogger(logger_name)] registers
    the logger, then the inner loop runs over the handlers the
    'prefect.extra' logger has when the loop starts. *)
Definition copy_extra (reg : gmap string logger) (logger_name : string)
    : gmap string logger :=
  let reg := <[logger_name := getLogger logger_name reg]> reg in
  foldl (fun reg handler => copy_handler logger_name handler reg)
        reg (handlers (getLogger "prefect.extra" reg)).

(** Lines 95-103; [logging.getLogger("prefect.extra")] registers the
    logger if it is new. *)
Definition copy_to_extra_loggers (settings : LoggingSettings)
    (reg : gmap string logger) : gmap string logger :=
  let reg := <["prefect.extra" := getLogger "prefect.extra" reg]> reg in
  foldl copy_extra reg (get_extra_loggers settings).

(** Lines 69-73: the file that is loaded. *)
Definition config_path (H : host) (settings : LoggingSettings) : string :=
  if path_exists H (settings_path settings) then settings_path settings
  else DEFAULT_LOGGING_SETTINGS_PATH H.

(** Lines 68-75: the configuration a call resolves. *)
Definition resolved_config (H : host) (settings : LoggingSettings) : exn + dict :=
  load_logging_config H (config_path H settings) settings.

(** Lines 92-105, the first configuration of the process. *)
Definition apply_config (H : host) (settings : LoggingSettings)
    (config : dict) (w : world) : outcome * world :=
  let '(ok, reg) := dictConfig H config (loggers w) in
  if ok then
    (Returned,
     {| PROCESS_LOGGING_CONFIG := Some config;
        loggers := copy_to_extra_loggers settings reg;
        warned := warned w;
        configured := configured w ++ [config] |})
  else
    (Raised ValueError,
     {| PROCESS_LOGGING_CONFIG := PROCESS_LOGGING_CONFIG w;
        loggers := reg;
        warned := warned w;
        configured := configured w ++ [config] |}).

Definition setup_logging (H : host) (settings : LoggingSettings) (w : world)
    : outcome * world :=
  match resolved_config H settings with
  | inl e => (Raised e, w)
  | inr config =>
      if truthy (PROCESS_LOGGING_CONFIG w) then
        let stored := default [] (PROCESS_LOGGING_CONFIG w) in
        match config_diff stored config with
        | inl e => (Raised e, w)
        | inr [] => (Returned, w)
        | inr diff => (Returned, warn diff w)
        end
      else apply_config H settings config w
  end.

(** ** The words of the specification *)

Module Spec.

(** The maximal runs of [s]: consecutive characters that are all
    alphanumeric or all not, each run with its kind. *)
Fixpoint runs (s : string) : list (bool * string) :=
  match s with
  | EmptyString => []
  | String c s' =>
      match runs s' with
      | (kind, run) :: rest =>
          if Bool.eqb (Text.is_alnum c) kind
          then (kind, String c run) :: rest
          else (Text.is_alnum c, String c EmptyString) :: (kind, run) :: rest
      | [] => [(Text.is_alnum c, String c EmptyString)]
      end
  end.

Fixpoint concat (l : list string) : string :=
  match l with
  | [] => EmptyString
  | x :: l' => x +:+ concat l'
  end.

(** The runs written out again, a run of non-alphanumeric characters
    as a single ["_"]. *)
Definition render (rs : list (bool * string)) : string :=
  concat (map (fun '(kind, run) => if kind : bool then run else "_") rs).

(** Every maximal run of non-alphanumeric characters replaced with a
    single ["_"]. *)
Definition replace_runs (s : string) : string := render (runs s).

(** Joining the segments with ["_"], upper-casing, prefixing with the
    configured prefix, replacing the runs: in that order. *)
Definition EnvOverrideKey (prefix : string) (key : key_tuple) : string :=
  replace_runs (prefix +:+ Text.upper (Text.join "_" key)).

(** A string of the exact form of a settings reference around [name],
    and the same followed by one newline. *)
Definition reference (name : string) : string := "{{" +:+ name +:+ "}}".

(** An identifier: one character or more, all of [[\w\d_]]. *)
Definition identifier (name : string) : bool :=
  negb (String.eqb name EmptyString) && forallb Text.is_word (list_ascii_of_string name).

End Spec.

(** No string of the exact form of a settings reference, with or without
    a final newline. *)
Definition not_a_reference (s : string) : Prop :=
  forall name, Spec.identifier name = true ->
    s <> Spec.reference name /\ s <> Spec.reference name +:+ Text.newline.

(** [map_leaves f v]: the tree [v] with every leaf [x] at path [p]
    replaced by [f p x]; the dictionaries above the leaves keep their keys
    and their order. *)
Fixpoint map_leaves (f : key_tuple -> value -> value) (v : value) : value :=
  match v with
  | VDict ((_ :: _) as d) =>
      VDict (map (fun '(k, x) => (k, map_leaves (fun p => f (k :: p)) x)) d)
  | _ => f [] v
  end.

(** The entries of a flat dictionary with their values replaced. *)
Definition map_entries (f : key_tuple -> value -> value) (fd : flatdict)
    : flatdict :=
  map (fun e => (e.1, f e.1 e.2)) fd.

Definition map_config (f : key_tuple -> value -> value) (d : dict) : dict :=
  map (fun '(k, x) => (k, map_leaves (fun p => f (k :: p)) x)) d.

(** Lines 79-83 when no key is missing: the entries of the new
    configuration whose value is not equal to the stored one. *)
Definition differing (stored config : dict) : dict :=
  List.filter (fun '(k, x) =>
            match dict_get k stored with
            | Some old => negb (py_eq old x)
            | None => false
            end) config.

(** The stored configuration already has every entry of the new one:
    lines 79-83 find nothing to report. *)
Definition nothing_new (stored config : dict) : bool :=
  forallb (fun '(k, x) =>
             match dict_get k stored with
             | Some old => py_eq old x
             | None => false
             end) config.

(** One turn of the inner loop, lines 100-103, as a function of the
    logger it configures, [template] being the 'prefect.extra' logger. *)
Definition copy_step (template : logger) (handler : nat) (l : logger) : logger :=
  let l := addHandler handler l in
  let l := if Z.eqb (level l) NOTSET then setLevel (level template) l else l in
  set_propagate (propagate template) l.

(** The level the extra logger ends with: that of the template when its
    own is NOTSET, its own otherwise. *)
Definition copied_level (template before : logger) : Z :=
  if Z.eqb (level before) NOTSET then level template else level before.

(** [after] has received the configuration of [template]: all its
    handlers, its level if the level of the logger was NOTSET, and its
    propagation flag. *)
Definition copied (template before after : logger) : Prop :=
  handlers template ⊆ handlers after
  /\ level after = copied_level template before
  /\ propagate after = propagate template.

(** ** Hosts and settings for the examples *)

Module Example.

(** A host given by tables: the files, the result of parsing each text,
    the environment, and the registry a successful [dictConfig] leaves.
    [dictConfig] accepts every configuration [accepts] does. *)
Definition table_host (fs : list (string * string))
    (yaml : list (string * value)) (env : list (string * string))
    (accepts : dict -> bool) (after : gmap string logger) : host :=
  {| files := fun path => dict_get path fs;
     environ := fun name => dict_get name env;
     safe_load := fun text => dict_get text yaml;
     dictConfig := fun config reg =>
                     if accepts config then (true, after) else (false, reg);
     DEFAULT_LOGGING_SETTINGS_PATH := "/prefect/logging/logging.yml" |}.

Definition settings_at (path : string) (prefix : string)
    (attrs : list (string * value)) (extra : list string) : LoggingSettings :=
  {| env_prefix := prefix;
     settings_path := path;
     attribute := fun name => dict_get name attrs;
     get_extra_loggers := extra |}.

(** The process before any call. *)
Definition start : world :=
  {| PROCESS_LOGGING_CONFIG := None;
     loggers := ∅;
     warned := [];
     configured := [] |}.

Definition configured_with (stored : dict) : world :=
  {| PROCESS_LOGGING_CONFIG := Some stored;
     loggers := ∅;
     warned := [];
     configured := [stored] |}.

Definition level_key : key_tuple := ["loggers"; "root"; "level"].

Definition yml : string := "/etc/prefect/logging.yml".

(** Settings with the prefix [app_], one attribute and one extra
    logger. *)
Definition app_settings : LoggingSettings :=
  settings_at yml "app_" [("log_level", VStr "WARNING")] ["vendor.lib"].

(** A host with the given environment and nothing else. *)
Definition env_host (env : list (string * string)) : host :=
  table_host [] [] env (fun _ => true) ∅.

(** A host whose configuration file parses to [v], with a [dictConfig]
    that accepts every configuration and leaves the registry [after]. *)
Definition file_host (v : value) (after : gmap string logger) : host :=
  table_host [(yml, "document")] [("document", v)] [] (fun _ => true) after.

Definition flat1 : flatdict := [(level_key, VInt 20); (["version"], VInt 1)].

Definition version1 : dict := [("version", VInt 1)].

Definition with_handlers : dict := [("version", VInt 1); ("handlers", VDict [])].

(** The 'prefect.extra' logger with level DEBUG, no propagation and no
    handler. *)
Definition bare_extra : gmap string logger :=
  {[ "prefect.extra" := {| handlers := []; level := 10; propagate := false |} ]}.

(** The same with two handlers. *)
Definition full_extra : gmap string logger :=
  {[ "prefect.extra" := {| handlers := [1; 2]; level := 10; propagate := false |} ]}.

Definition cfg1 : dict :=
  [("version", VInt 1);
   ("loggers", VDict [("root", VDict [("level", VStr "INFO");
                                      ("handlers", VList [VStr "console"])]);
                      ("empty", VDict [])]);
   ("flag", VBool true)].

End Example.


(** ** Further notions *)

(** The shape [to_envvar] gives a name: characters of [[0-9a-zA-Z_]]
    only, and no underscore next to another.  [after_underscore] tells
    whether the character before was an underscore. *)
Fixpoint normal_from (after_underscore : bool) (s : string) : bool :=
  match s with
  | EmptyString => true
  | String c s' =>
      if Text.is_alnum c then normal_from false s'
      else Ascii.eqb c "_" && negb after_underscore && normal_from true s'
  end.

(** A digit, an upper-case letter or the underscore. *)
Definition env_char (c : ascii) : bool :=
  Text.is_digit c || Text.is_upper c || Ascii.eqb c "_".

(** The entry is left alone by the loop of lines 35-58: its environment
    variable is unset or empty, and its value is not a string that begins
    with two opening braces. *)
Definition untouched (H : host) (settings : LoggingSettings)
    (e : key_tuple * value) : bool :=
  match environ H (env_name settings e.1) with
  | Some env_val => String.eqb env_val EmptyString
  | None => true
  end
  && match e.2 with
     | VStr s => negb (Text.startswith "{{" s)
     | _ => true
     end.

(** Calls of [setup_logging] one after the other, each with its own host
    and settings; the exceptions are dropped, the process goes on. *)
Definition run_calls (calls : list (host * LoggingSettings)) (w : world) : world :=
  foldl (fun w c => (setup_logging c.1 c.2 w).2) w calls.

(** [logging.config.dictConfig] raises [ValueError] for a mapping without
    the key ['version'] ("dictionary doesn't specify a version"): the
    hosts whose [dictConfig] does so. *)
Definition rejects_without_version (H : host) : Prop :=
  forall config reg,
    dict_get "version" config = None -> (dictConfig H config reg).1 = false.

(** A host like [Example.file_host] whose [dictConfig] accepts the
    configurations that have the key ['version'] and raises for the
    others. *)
Definition checking_host (v : value) (after : gmap string logger) : host :=
  Example.table_host [(Example.yml, "document")] [("document", v)] []
    (fun config => bool_decide (is_Some (dict_get "version" config))) after.
(** * Properties *)

(** ** Text and the two regular expressions *)

Section text_facts.
Import Text.

Lemma append_cons (c : ascii) (a b : string) :
  String c a +:+ b = String c (a +:+ b).
Proof. reflexivity. Qed.

Lemma append_nil_l (b : string) : EmptyString +:+ b = b.
Proof. reflexivity. Qed.

Lemma append_assoc (a b c : string) : (a +:+ b) +:+ c = a +:+ (b +:+ c).
Proof.
  induction a as [|x a IH]; [done |].
  by rewrite !append_cons, IH.
Qed.

Lemma upper_app (a b : string) : upper (a +:+ b) = upper a +:+ upper b.
Proof.
  induction a as [|c a IH]; [done |].
  rewrite append_cons. simpl. by rewrite IH, append_cons.
Qed.

(** What the single pass writes, told from the runs of the string: started
    inside a run, it does not write the ["_"] of a leading run again. *)
Lemma to_envvar_from_runs (s : string) :
  to_envvar_from false s = Spec.render (Spec.runs s)
  /\ to_envvar_from true s =
       match Spec.runs s with
       | (false, _) :: rest => Spec.render rest
       | rs => Spec.render rs
       end.
Proof.
  induction s as [|c s [IHf IHt]]; [done |].
  cbn [to_envvar_from Spec.runs].
  destruct (is_alnum c) eqn:Hc.
  - rewrite IHf.
    assert (Spec.render (match Spec.runs s with
                    | [] => [(true, String c EmptyString)]
                    | (kind, run) :: rest =>
                        if Bool.eqb true kind then (kind, String c run) :: rest
                        else (true, String c EmptyString) :: (kind, run) :: rest
                    end) = String c (Spec.render (Spec.runs s))) as Hr.
    { destruct (Spec.runs s) as [|[[] run] rest]; reflexivity. }
    split; [by rewrite Hr |].
    rewrite <- Hr.
    by destruct (Spec.runs s) as [|[[] run] rest].
  - rewrite IHt.
    destruct (Spec.runs s) as [|[[] run] rest]; split; reflexivity.
Qed.

Lemma to_envvar_replace_runs (s : string) : to_envvar s = Spec.replace_runs s.
Proof. apply to_envvar_from_runs. Qed.

Lemma span_spec (f : ascii -> bool) (s a b : string) :
  span f s = (a, b) ->
  s = a +:+ b /\ forallb f (list_ascii_of_string a) = true.
Proof.
  revert a b. induction s as [|c s IH]; intros a b; simpl.
  - intros [= <- <-]. done.
  - destruct (f c) eqn:Hc.
    + destruct (span f s) as [a' b']. intros [= <- <-].
      destruct (IH _ _ eq_refl) as [-> Ha].
      rewrite append_cons. simpl. by rewrite Hc, Ha.
    + intros [= <- <-]. done.
Qed.

Lemma span_app (f : ascii -> bool) (a : string) (c : ascii) (b : string) :
  forallb f (list_ascii_of_string a) = true -> f c = false ->
  span f (a +:+ String c b) = (a, String c b).
Proof.
  intros Ha Hc. induction a as [|x a IH].
  - rewrite append_nil_l. simpl. by rewrite Hc.
  - simpl in Ha. apply andb_true_iff in Ha as [Hx Ha].
    rewrite append_cons. simpl. by rewrite Hx, (IH Ha).
Qed.

Lemma interpolated_settings_reference (name : string) :
  Spec.identifier name = true ->
  interpolated_settings (Spec.reference name) = Some name
  /\ interpolated_settings (Spec.reference name +:+ newline) = Some name.
Proof.
  unfold Spec.identifier. intros [Hne Hw]%andb_true_iff.
  apply negb_true_iff in Hne.
  unfold Spec.reference, interpolated_settings.
  split.
  - rewrite !append_cons, append_nil_l.
    rewrite (span_app _ _ "}" "}" Hw eq_refl), Hne. done.
  - rewrite !append_assoc, !append_cons, !append_nil_l.
    rewrite (span_app _ _ "}" (String "}" newline) Hw eq_refl), Hne. done.
Qed.

Lemma interpolated_settings_shape (s name : string) :
  interpolated_settings s = Some name ->
  Spec.identifier name = true
  /\ (s = Spec.reference name \/ s = Spec.reference name +:+ newline).
Proof.
  unfold interpolated_settings.
  destruct s as [|c0 [|c1 rest]]; try done.
  { destruct c0 as [[] [] [] [] [] [] [] []]; done. }
  destruct (Ascii.eqb_spec c0 "{") as [->|Hc0];
    [| by destruct c0 as [[] [] [] [] [] [] [] []]].
  destruct (Ascii.eqb_spec c1 "{") as [->|Hc1];
    [| by destruct c1 as [[] [] [] [] [] [] [] []]].
  destruct (span is_word rest) as [a b] eqn:Hspan.
  apply span_spec in Hspan as [-> Hw].
  destruct (String.eqb a EmptyString) eqn:Hne; [done |].
  destruct (String.eqb_spec b "}}") as [->|_].
  { intros [= <-]. unfold Spec.identifier. rewrite Hne, Hw. by split; [| left]. }
  destruct (String.eqb_spec b ("}}" +:+ newline)) as [->|_]; [| done].
  intros [= <-]. unfold Spec.identifier. rewrite Hne, Hw. split; [done | right].
  unfold Spec.reference. by rewrite !append_assoc.
Qed.

(** The test [val.startswith("{{")] of line 47 lets through every string
    the regular expression matches. *)
Lemma interpolate_str (settings : LoggingSettings) (s : string) :
  interpolate settings (VStr s) =
  match interpolated_settings s with
  | Some matched_key => getattr settings matched_key
  | None => VStr s
  end.
Proof.
  assert (forall x, String.prefix EmptyString x = true) as Hnil by (by intros []).
  unfold interpolate.
  destruct (startswith "{{" s) eqn:Hp; [done |].
  destruct (interpolated_settings s) eqn:Hm; [| done].
  apply interpolated_settings_shape in Hm as [_ [-> | ->]];
    unfold Spec.reference, startswith in Hp;
    rewrite ?append_assoc, !append_cons in Hp; simpl in Hp;
    by rewrite Hnil in Hp.
Qed.

End text_facts.

(** ** Dictionaries *)

Section assoc_facts.
Context {K A : Type} `{EqDecision K}.
Implicit Types (k : K) (v : A) (d : list (K * A)).

Lemma dict_get_notin k d : k ∉ keys d -> dict_get k d = None.
Proof.
  induction d as [|[k' v'] d IH]; [done |]. simpl.
  intros [Hne Hnotin]%not_elem_of_cons.
  destruct (decide (k' = k)); [congruence | auto].
Qed.

Lemma dict_get_Some_keys k v d : dict_get k d = Some v -> k ∈ keys d.
Proof.
  induction d as [|[k' v'] d IH]; [done |]. simpl.
  destruct (decide (k' = k)) as [->|]; [left | right; auto].
Qed.


Lemma dict_set_app_notin k v (a b : list (K * A)) :
  k ∉ keys a -> dict_set k v (a ++ b) = a ++ dict_set k v b.
Proof.
  induction a as [|[k' v'] a IH]; [done |]. simpl.
  intros [Hne Hnotin]%not_elem_of_cons.
  rewrite decide_False by congruence. by rewrite IH.
Qed.

Lemma dict_set_notin k v d : k ∉ keys d -> dict_set k v d = d ++ [(k, v)].
Proof.
  intros Hnotin. rewrite <- (app_nil_r d) at 1.
  by rewrite dict_set_app_notin.
Qed.

Lemma dict_get_set_eq k v d : dict_get k (dict_set k v d) = Some v.
Proof.
  induction d as [|[k' v'] d IH]; simpl.
  - by rewrite decide_True.
  - destruct (decide (k' = k)) as [->|Hne]; simpl.
    + by rewrite decide_True.
    + by rewrite decide_False.
Qed.

Lemma dict_set_set k v v' d : dict_set k v (dict_set k v' d) = dict_set k v d.
Proof.
  induction d as [|[k' v''] d IH]; simpl.
  - by rewrite decide_True.
  - destruct (decide (k' = k)) as [->|Hne]; simpl.
    + by rewrite decide_True.
    + rewrite decide_False by done. by rewrite IH.
Qed.

Lemma dict_set_get_id k v d : dict_get k d = Some v -> dict_set k v d = d.
Proof.
  induction d as [|[k' v'] d IH]; [done |]. simpl.
  destruct (decide (k' = k)) as [->|].
  - by intros [= ->].
  - intros Hget. by rewrite (IH Hget).
Qed.

Lemma keys_app (a b : list (K * A)) : keys (a ++ b) = keys a ++ keys b.
Proof. apply fmap_app. Qed.

Lemma distinct_keys_NoDup d : distinct_keys d = true <-> NoDup (keys d).
Proof. unfold distinct_keys. apply bool_decide_eq_true. Qed.
End assoc_facts.

Section value_facts.

Lemma wf_dict_cons k x (d : dict) :
  wf_dict ((k, x) :: d) = true ->
  (k ∉ keys d) /\ wf_value x = true /\ wf_dict d = true.
Proof.
  unfold wf_dict. simpl.
  intros [Hk [Hx Hd]%andb_true_iff]%andb_true_iff.
  apply distinct_keys_NoDup in Hk. simpl in Hk.
  apply NoDup_cons in Hk as [Hnotin Hnd].
  repeat split; [done | done |].
  apply andb_true_iff. split; [by apply distinct_keys_NoDup | done].
Qed.




End value_facts.

(** ** Flattening and reassembling *)

Section flat_facts.
Implicit Types (d acc sub : dict) (fd es : flatdict) (p : key_tuple)
  (f : key_tuple -> value -> value).

Lemma put_all_None fd : put_all None fd = None.
Proof. induction fd as [|e fd IH]; [done | apply IH]. Qed.

Lemma put_all_app o (a b : flatdict) :
  put_all o (a ++ b) = put_all (put_all o a) b.
Proof. apply foldl_app. Qed.

Lemma put_all_cons acc e fd :
  put_all (Some acc) (e :: fd) = put_all (set_path e.1 e.2 acc) fd.
Proof. reflexivity. Qed.

Lemma set_path_under k p v acc :
  p <> [] ->
  set_path (k :: p) v acc =
  match dict_get k acc with
  | None => sub ← set_path p v []; Some (dict_set k (VDict sub) acc)
  | Some (VDict sub0) =>
      sub ← set_path p v sub0; Some (dict_set k (VDict sub) acc)
  | Some _ => None
  end.
Proof. by destruct p. Qed.

(** Entries below a key that already holds a dictionary are put into
    that dictionary. *)
Lemma put_all_under_existing k es : forall acc sub0,
  Forall (fun e => e.1 <> []) es ->
  dict_get k acc = Some (VDict sub0) ->
  put_all (Some acc) (map (under k) es) =
    sub ← put_all (Some sub0) es; Some (dict_set k (VDict sub) acc).
Proof.
  induction es as [|[p v] es IH]; intros acc sub0 Hne Hget.
  - simpl. by rewrite (dict_set_get_id _ _ _ Hget).
  - apply Forall_cons in Hne as [Hp Hne]. simpl in Hp.
    cbn [map]. rewrite !put_all_cons. unfold under at 1 2. cbn [fst snd].
    rewrite (set_path_under _ _ _ _ Hp), Hget.
    destruct (set_path p v sub0) as [sub1|]; simpl.
    + rewrite (IH _ sub1 Hne (dict_get_set_eq _ _ _)).
      destruct (put_all (Some sub1) es); simpl; [| done].
      by rewrite dict_set_set.
    + by rewrite !put_all_None.
Qed.

(** The first entry below a new key creates the dictionary, at the end
    of [acc]; the others are put into it. *)
Lemma put_all_under_new k es acc :
  es <> [] ->
  Forall (fun e => e.1 <> []) es ->
  k ∉ keys acc ->
  put_all (Some acc) (map (under k) es) =
    sub ← put_all (Some []) es; Some (acc ++ [(k, VDict sub)]).
Proof.
  destruct es as [|[p v] es]; [done |]. intros _ Hne Hk.
  apply Forall_cons in Hne as [Hp Hne]. simpl in Hp.
  cbn [map]. rewrite !put_all_cons. unfold under at 1 2. cbn [fst snd].
  rewrite (set_path_under _ _ _ _ Hp), (dict_get_notin _ _ Hk).
  destruct (set_path p v []) as [sub1|]; simpl.
  - rewrite (put_all_under_existing _ _ _ sub1 Hne (dict_get_set_eq _ _ _)).
    destruct (put_all (Some sub1) es); simpl; [| done].
    by rewrite dict_set_set, dict_set_notin.
  - by rewrite !put_all_None.
Qed.

Lemma map_entries_app f (a b : flatdict) :
  map_entries f (a ++ b) = map_entries f a ++ map_entries f b.
Proof. apply map_app. Qed.

Lemma map_entries_under f k es :
  map_entries f (map (under k) es) =
  map (under k) (map_entries (fun p => f (k :: p)) es).
Proof.
  unfold map_entries. rewrite !map_map. by apply map_ext.
Qed.

Lemma map_entries_paths f es :
  Forall (fun e => e.1 <> []) es ->
  Forall (fun e => e.1 <> []) (map_entries f es).
Proof.
  induction 1 as [|e es He _ IH]; [constructor |].
  simpl. by constructor.
Qed.

Lemma dict_to_flatdict_cons k x d :
  dict_to_flatdict ((k, x) :: d) =
  map (under k) (leaves x) ++ dict_to_flatdict d.
Proof. reflexivity. Qed.

Lemma leaves_leaf x : is_branch x = false -> leaves x = [([], x)].
Proof. by destruct x as [| | | | |[|e d]|]. Qed.

Lemma leaves_branch x :
  is_branch x = true ->
  exists e d, x = VDict (e :: d) /\ leaves x = dict_to_flatdict (e :: d).
Proof. destruct x as [| | | | |[|e d]|]; try done. by exists e, d. Qed.

Lemma leaves_nonempty x : leaves x <> [].
Proof.
  induction x as [| | | |items _|d IH|] using value_ind; try done.
  destruct d as [|[k x] d]; [done |].
  apply Forall_cons in IH as [Hx _]. simpl in Hx.
  change (leaves (VDict ((k, x) :: d)))
    with (map (under k) (leaves x) ++ dict_to_flatdict d).
  destruct (leaves x); [done | discriminate].
Qed.

Lemma dict_to_flatdict_paths d :
  Forall (fun e => exists k rest, e.1 = k :: rest /\ k ∈ keys d)
         (dict_to_flatdict d).
Proof.
  induction d as [|[k x] d IH]; [constructor |].
  rewrite dict_to_flatdict_cons. apply Forall_app. split.
  - apply Forall_forall. intros e Hin%list_elem_of_In.
    apply in_map_iff in Hin as ([p v] & <- & _).
    exists k, p. split; [done | left].
  - eapply Forall_impl; [exact IH |].
    intros e (k' & rest & He & Hk'). exists k', rest. split; [done | by right].
Qed.

Lemma dict_to_flatdict_paths_nonempty d :
  Forall (fun e => e.1 <> []) (dict_to_flatdict d).
Proof.
  eapply Forall_impl; [apply dict_to_flatdict_paths |].
  by intros e (k & rest & -> & _).
Qed.

(** Reassembling the flattened dictionary after its values have been
    replaced gives the dictionary with its leaves replaced. *)
Lemma put_all_flat (v : value) : forall d,
  v = VDict d -> wf_dict d = true ->
  forall f acc, (forall k, k ∈ keys d -> k ∉ keys acc) ->
  put_all (Some acc) (map_entries f (dict_to_flatdict d)) =
    Some (acc ++ map_config f d).
Proof.
  induction v as [| | | |items _|d0 IH|] using value_ind; try done.
  intros d [= <-]. induction d0 as [|[k x] d IHd]; intros Hwf f acc Hacc.
  - simpl. by rewrite app_nil_r.
  - apply wf_dict_cons in Hwf as (Hk & Hx & Hd).
    apply Forall_cons in IH as [IHx IH]. simpl in IHx.
    rewrite dict_to_flatdict_cons, map_entries_app, put_all_app.
    rewrite map_entries_under.
    assert (k ∉ keys acc) as Hkacc by (apply Hacc; left).
    assert (put_all (Some acc)
              (map (under k) (map_entries (fun p => f (k :: p)) (leaves x)))
            = Some (acc ++ [(k, map_leaves (fun p => f (k :: p)) x)])) as ->.
    { destruct (is_branch x) eqn:Hb.
      - apply leaves_branch in Hb as (e & sub & -> & Hl).
        rewrite put_all_under_new; [| | | done].
        + rewrite Hl, (IHx _ eq_refl Hx _ []); [done |].
          intros ? _. apply not_elem_of_nil.
        + unfold map_entries. intros Hnil%map_eq_nil.
          by apply leaves_nonempty in Hnil.
        + apply map_entries_paths. rewrite Hl.
          apply dict_to_flatdict_paths_nonempty.
      - rewrite (leaves_leaf _ Hb). simpl.
        rewrite (dict_set_notin _ _ _ Hkacc).
        by destruct x as [| | | | |[|e sub]|]. }
    rewrite (IHd IH Hd).
    + by rewrite <- app_assoc.
    + intros k' Hk'. unfold keys. rewrite fmap_app. simpl.
      intros [Hin | ->%list_elem_of_singleton]%elem_of_app; [| done].
      revert Hin. apply Hacc. by right.
Qed.

End flat_facts.

Section load_facts.
Implicit Types (d : dict) (fd : flatdict) (p : key_tuple).

Lemma keys_under k fd : keys (map (under k) fd) = cons k <$> keys fd.
Proof.
  unfold keys. induction fd as [|e fd IH]; [done |].
  change ((k :: e.1) :: (fst <$> map (under k) fd)
          = (k :: e.1) :: (cons k <$> (fst <$> fd))).
  by rewrite IH.
Qed.

(** The paths of the flattened dictionary are pairwise distinct. *)
Lemma dict_to_flatdict_NoDup (v : value) : forall d,
  v = VDict d -> wf_dict d = true -> NoDup (keys (dict_to_flatdict d)).
Proof.
  induction v as [| | | |items _|d0 IH|] using value_ind; try done.
  intros d [= <-]. induction d0 as [|[k x] d IHd]; intros Hwf.
  - constructor.
  - apply wf_dict_cons in Hwf as (Hk & Hx & Hd).
    apply Forall_cons in IH as [IHx IH]. simpl in IHx.
    rewrite dict_to_flatdict_cons, keys_app. apply NoDup_app.
    split; [| split; [| by apply IHd]].
    + rewrite keys_under. apply (NoDup_fmap_2 _).
      destruct (is_branch x) eqn:Hb.
      * apply leaves_branch in Hb as (e & sub & -> & ->).
        by apply IHx.
      * rewrite (leaves_leaf _ Hb). apply NoDup_singleton.
    + intros p Hp1 Hp2.
      apply list_elem_of_fmap in Hp1 as (e1 & -> & He1).
      apply list_elem_of_In, in_map_iff in He1 as ([q v'] & <- & _).
      apply list_elem_of_fmap in Hp2 as (e2 & He & He2).
      pose proof (dict_to_flatdict_paths d) as Hpaths.
      rewrite Forall_forall in Hpaths.
      destruct (Hpaths _ He2) as (k' & rest & He2' & Hk').
      simpl in He. rewrite He2' in He. by injection He as <- _.
Qed.

(** Each assignment of the loop replaces the value of the entry being
    visited, so the loop maps the body over the entries. *)
Lemma resolve_all_map_entries H settings fd :
  NoDup (keys fd) ->
  resolve_all H settings fd = map_entries (resolve H settings) fd.
Proof.
  unfold resolve_all.
  set (g := resolve H settings).
  enough (forall todo done,
            NoDup (keys (done ++ todo)) ->
            foldl (fun fc e => dict_set e.1 (g e.1 e.2) fc)
                  (map_entries g done ++ todo) todo
            = map_entries g (done ++ todo)) as Hgen.
  { intros Hnd. apply (Hgen fd []). exact Hnd. }
  induction todo as [|[p v] todo IH]; intros done Hnd.
  - simpl. by rewrite !app_nil_r.
  - simpl.
    assert (p ∉ keys (map_entries g done)) as Hp.
    { rewrite keys_app in Hnd. apply NoDup_app in Hnd as (_ & Hdisj & _).
      intros Hin. apply (Hdisj p); [| left].
      unfold keys, map_entries in *.
      apply list_elem_of_fmap in Hin as (e & -> & He).
      apply list_elem_of_In, in_map_iff in He as (e' & <- & He').
      apply list_elem_of_fmap. exists e'. split; [done |].
      by apply list_elem_of_In. }
    rewrite (dict_set_app_notin _ _ _ _ Hp). simpl.
    rewrite decide_True by done.
    specialize (IH (done ++ [(p, v)])).
    rewrite <- !app_assoc in IH. simpl in IH.
    rewrite map_entries_app in IH. simpl in IH.
    rewrite <- app_assoc in IH. simpl in IH.
    rewrite (IH Hnd). by rewrite !map_entries_app.
Qed.

Lemma flatdict_to_dict_map_entries d f :
  wf_dict d = true ->
  flatdict_to_dict (map_entries f (dict_to_flatdict d))
  = Some (map_config f d).
Proof.
  intros Hwf. unfold flatdict_to_dict.
  rewrite (put_all_flat _ d eq_refl Hwf f []); [done |].
  intros ? _. apply not_elem_of_nil.
Qed.

Lemma map_leaves_id (v : value) : map_leaves (fun _ x => x) v = v.
Proof.
  induction v as [| | | |items _|d IH|] using value_ind; try done.
  destruct d as [|e d]; [done |].
  change (VDict (map (fun '(k, x) => (k, map_leaves (fun _ x0 => x0) x)) (e :: d))
          = VDict (e :: d)).
  f_equal. induction IH as [|[k x] l Hx _ IHl]; [done |].
  simpl in *. by rewrite Hx, IHl.
Qed.

Lemma map_config_id d : map_config (fun _ x => x) d = d.
Proof.
  unfold map_config. induction d as [|[k x] d IH]; [done |].
  simpl. by rewrite map_leaves_id, IH.
Qed.

Lemma map_entries_id fd : map_entries (fun _ x => x) fd = fd.
Proof.
  unfold map_entries. induction fd as [|[p v] fd IH]; [done |].
  simpl. by rewrite IH.
Qed.

(** What [load_logging_config] returns for a file that parses to a
    dictionary. *)
Lemma load_logging_config_tree H path settings text d :
  files H path = Some text ->
  safe_load H text = Some (VDict d) ->
  wf_dict d = true ->
  load_logging_config H path settings
  = inr (map_config (resolve H settings) d).
Proof.
  intros Hfile Hyaml Hwf. unfold load_logging_config, read_text.
  rewrite Hfile, Hyaml. cbn [as_mapping]. cbv zeta.
  rewrite resolve_all_map_entries
    by exact (dict_to_flatdict_NoDup _ d eq_refl Hwf).
  by rewrite flatdict_to_dict_map_entries.
Qed.

End load_facts.

(** ** The override key *)

(** C7 (amended): for every key tuple and every prefix, the name looked up
    in the environment is the key the specification derives (segments
    joined with ["_"], upper-cased, prefixed, every maximal run of
    non-alphanumeric characters replaced with one ["_"]) from the
    upper-cased prefix: the code upper-cases the prefix together with the
    joined segments.  The derivation is a total function. *)
Theorem env_name_derivation (settings : LoggingSettings) (key_tup : key_tuple) :
  env_name settings key_tup
  = Spec.EnvOverrideKey (Text.upper (env_prefix settings)) key_tup.
Proof.
  unfold env_name, Spec.EnvOverrideKey.
  by rewrite upper_app, to_envvar_replace_runs.
Qed.

(** C7 as stated fails for a prefix with a lower-case letter: with the
    prefix [app_] the code looks up [APP_LOGGERS_ROOT_LEVEL], the derivation
    of the specification gives [app_LOGGERS_ROOT_LEVEL]. *)
Lemma env_name_lower_case_prefix :
  env_name Example.app_settings Example.level_key = "APP_LOGGERS_ROOT_LEVEL"
  /\ Spec.EnvOverrideKey (env_prefix Example.app_settings) Example.level_key
     = "app_LOGGERS_ROOT_LEVEL"
  /\ env_name Example.app_settings Example.level_key
     <> Spec.EnvOverrideKey (env_prefix Example.app_settings) Example.level_key.
Proof. repeat split. vm_compute. discriminate. Qed.

(** ** The entries of the flattened configuration *)

Lemma dict_get_map_entries (g : key_tuple -> value -> value) (fd : flatdict)
    (p : key_tuple) :
  dict_get p (map_entries g fd) = g p <$> dict_get p fd.
Proof.
  induction fd as [|[q v] fd IH]; [done |]. simpl.
  destruct (decide (q = p)) as [->|]; [done | apply IH].
Qed.

(** The entry the loop leaves at a key. *)
Lemma resolve_all_get (H : host) (settings : LoggingSettings) (fd : flatdict)
    (key_tup : key_tuple) (val : value) :
  distinct_keys fd = true ->
  dict_get key_tup fd = Some val ->
  dict_get key_tup (resolve_all H settings fd)
  = Some (resolve H settings key_tup val).
Proof.
  intros Hnd%distinct_keys_NoDup Hget.
  by rewrite resolve_all_map_entries, dict_get_map_entries, Hget.
Qed.

Lemma interpolate_not_a_reference (settings : LoggingSettings) (s : string) :
  not_a_reference s -> interpolate settings (VStr s) = VStr s.
Proof.
  intros Hnot. rewrite interpolate_str.
  destruct (interpolated_settings s) as [name|] eqn:Hm; [| done].
  apply interpolated_settings_shape in Hm as [Hid Hs].
  destruct (Hnot name Hid) as [? ?]. by destruct Hs.
Qed.

Lemma interpolate_reference (settings : LoggingSettings) (name s : string) :
  Spec.identifier name = true ->
  s = Spec.reference name \/ s = Spec.reference name +:+ Text.newline ->
  interpolate settings (VStr s) = default VNone (attribute settings name).
Proof.
  intros Hid Hs. rewrite interpolate_str.
  destruct (interpolated_settings_reference name Hid) as [H1 H2].
  by destruct Hs as [-> | ->]; rewrite ?H1, ?H2.
Qed.

(** C1 (amended): for every entry of the flattened configuration whose
    environment variable is set and not empty, the string of the variable
    takes the place of the file value, whatever the type of that value, and
    the file value plays no further part.  The string then goes through the
    same resolution of settings references as a string of the file: it is
    stored verbatim unless it has the form of a reference to a setting, and
    if it has, the entry becomes the attribute of that name, or null when
    the settings object has none. *)
Theorem env_override_wins (H : host) (settings : LoggingSettings)
    (fd : flatdict) (key_tup : key_tuple) (val : value) (env_val : string) :
  distinct_keys fd = true ->
  dict_get key_tup fd = Some val ->
  environ H (env_name settings key_tup) = Some env_val ->
  env_val <> EmptyString ->
  dict_get key_tup (resolve_all H settings fd)
    = Some (interpolate settings (VStr env_val))
  /\ (not_a_reference env_val ->
      dict_get key_tup (resolve_all H settings fd) = Some (VStr env_val))
  /\ (forall name, Spec.identifier name = true ->
      env_val = Spec.reference name ->
      dict_get key_tup (resolve_all H settings fd)
        = Some (default VNone (attribute settings name))).
Proof.
  intros Hnd Hget Henv Hne.
  rewrite (resolve_all_get _ _ _ _ _ Hnd Hget).
  unfold resolve, env_override. rewrite Henv.
  apply String.eqb_neq in Hne. rewrite Hne.
  split; [done | split].
  - intros Hnot. by rewrite interpolate_not_a_reference.
  - intros name Hid ->. f_equal. apply interpolate_reference; auto.
Qed.

Lemma env_override_wins_witness :
  dict_get Example.level_key
    (resolve_all (Example.env_host [("APP_LOGGERS_ROOT_LEVEL", "DEBUG")])
                 Example.app_settings Example.flat1)
  = Some (VStr "DEBUG").
Proof.
  refine (proj1 (env_override_wins
                   (Example.env_host [("APP_LOGGERS_ROOT_LEVEL", "DEBUG")])
                   Example.app_settings Example.flat1 Example.level_key
                   (VInt 20) "DEBUG" _ _ _ _)).
  - reflexivity.
  - reflexivity.
  - reflexivity.
  - discriminate.
Defined.

(** C1 as stated fails: a value from the environment that matches the
    pattern of a settings reference is resolved like a value of the file.
    With [APP_LOGGERS_ROOT_LEVEL={{log_level}}] and the setting [log_level]
    equal to ["WARNING"], the entry becomes ["WARNING"], not the string of
    the variable. *)
Lemma env_value_is_interpolated :
  let H := Example.env_host [("APP_LOGGERS_ROOT_LEVEL", "{{log_level}}")] in
  environ H (env_name Example.app_settings Example.level_key)
    = Some "{{log_level}}"
  /\ dict_get Example.level_key
       (resolve_all H Example.app_settings Example.flat1)
     = Some (VStr "WARNING")
  /\ dict_get Example.level_key
       (resolve_all H Example.app_settings Example.flat1)
     <> Some (VStr "{{log_level}}").
Proof. repeat split. vm_compute. discriminate. Qed.

(** C6 (amended): for every entry that is not overridden by the
    environment (the variable is unset or empty) and whose value is a
    string: if the string is a settings reference, two opening braces, an
    identifier of [[\w\d_]+] and two closing braces, alone or followed by
    one final newline, the entry becomes the attribute of that name of
    the settings object, or null when there is none; every other string is
    left as it is. *)
Theorem settings_reference_resolution (H : host) (settings : LoggingSettings)
    (fd : flatdict) (key_tup : key_tuple) (s : string) :
  distinct_keys fd = true ->
  dict_get key_tup fd = Some (VStr s) ->
  environ H (env_name settings key_tup) = None
  \/ environ H (env_name settings key_tup) = Some EmptyString ->
  (forall name, Spec.identifier name = true ->
     s = Spec.reference name \/ s = Spec.reference name +:+ Text.newline ->
     dict_get key_tup (resolve_all H settings fd)
       = Some (default VNone (attribute settings name)))
  /\ (not_a_reference s ->
      dict_get key_tup (resolve_all H settings fd) = Some (VStr s)).
Proof.
  intros Hnd Hget Henv.
  rewrite (resolve_all_get _ _ _ _ _ Hnd Hget).
  assert (resolve H settings key_tup (VStr s) = interpolate settings (VStr s))
    as ->.
  { unfold resolve, env_override. by destruct Henv as [-> | ->]. }
  split.
  - intros name Hid Hs. f_equal. by apply (interpolate_reference _ name).
  - intros Hnot. f_equal. by apply interpolate_not_a_reference.
Qed.

Lemma last_of_reference (name : string) :
  exists body, Spec.reference name = body +:+ "}".
Proof.
  exists ("{{" +:+ name +:+ "}"). unfold Spec.reference.
  by rewrite !append_assoc.
Qed.

Lemma append_last_inj (a b : string) (x y : ascii) :
  a +:+ String x EmptyString = b +:+ String y EmptyString -> x = y.
Proof.
  revert b. induction a as [|c a IH]; intros [|d b]; rewrite ?append_cons, ?append_nil_l.
  - by intros [= ->].
  - intros [= _ Hb]. by destruct b.
  - intros [= _ Ha]. by destruct a.
  - intros [= _ Hab]. by apply (IH b).
Qed.

Lemma settings_reference_resolution_witness :
  let fd := [(Example.level_key, VStr "{{log_level}}");
             (["root"; "level"], VStr "{{missing_attr}}");
             (["a"], VStr "{{not closed");
             (["b"], VStr "plain text")] in
  dict_get Example.level_key
    (resolve_all (Example.env_host []) Example.app_settings fd)
  = Some (VStr "WARNING").
Proof.
  intros fd.
  refine (proj1 (settings_reference_resolution
                   (Example.env_host []) Example.app_settings fd
                   Example.level_key "{{log_level}}" _ _ _)
                "log_level" _ _).
  - reflexivity.
  - reflexivity.
  - left. reflexivity.
  - reflexivity.
  - left. reflexivity.
Defined.

(** C6 as stated fails: the string made of [{{log_level}}] and a final
    newline is not of the form of a settings reference, yet it does not
    pass through unchanged: [$] in the pattern also matches before a final
    newline. *)
Lemma reference_with_newline_is_resolved :
  let s := "{{log_level}}" +:+ Text.newline in
  let fd := [(Example.level_key, VStr s)] in
  (forall name, s <> Spec.reference name)
  /\ environ (Example.env_host [])
       (env_name Example.app_settings Example.level_key) = None
  /\ dict_get Example.level_key
       (resolve_all (Example.env_host []) Example.app_settings fd)
     = Some (VStr "WARNING")
  /\ dict_get Example.level_key
       (resolve_all (Example.env_host []) Example.app_settings fd)
     <> Some (VStr s).
Proof.
  repeat split; [| vm_compute; discriminate].
  intros name Hs. destruct (last_of_reference name) as [body Hb].
  rewrite Hb in Hs.
  change ("{{log_level}}" +:+ Text.newline)
    with ("{{log_level}}" +:+ String (ascii_of_nat 10) EmptyString) in Hs.
  apply append_last_inj in Hs. discriminate.
Qed.

(** ** The round trip *)

(** C3: flattening and reassembling are inverse to each other: every
    dictionary (its keys, and those of the dictionaries nested in it,
    pairwise distinct) is reassembled from its flattening; and
    [load_logging_config] returns the tree of the parsed file with its
    leaves replaced by what the loop computes for them, the keys and the
    nesting unchanged. *)
Theorem flatten_round_trip (d : dict) :
  wf_dict d = true ->
  flatdict_to_dict (dict_to_flatdict d) = Some d
  /\ forall (H : host) (path : string) (settings : LoggingSettings) text,
       files H path = Some text ->
       safe_load H text = Some (VDict d) ->
       load_logging_config H path settings
       = inr (map_config (resolve H settings) d).
Proof.
  intros Hwf. split.
  - rewrite <- (map_entries_id (dict_to_flatdict d)).
    rewrite flatdict_to_dict_map_entries by done.
    by rewrite map_config_id.
  - intros H path settings text Hfile Hyaml.
    by apply (load_logging_config_tree _ _ _ text).
Qed.

Lemma flatten_round_trip_witness :
  flatdict_to_dict (dict_to_flatdict Example.cfg1) = Some Example.cfg1.
Proof.
  refine (proj1 (flatten_round_trip Example.cfg1 _)).
  reflexivity.
Defined.

(** ** setup_logging *)

Section setup_facts.
Context (H : host) (settings : LoggingSettings).
Implicit Types (w : world) (stored config : dict).

Lemma truthy_Some stored : stored <> [] -> truthy (Some stored) = true.
Proof. by destruct stored. Qed.

(** The process is configured: lines 77-90. *)
Lemma setup_logging_configured w stored config :
  PROCESS_LOGGING_CONFIG w = Some stored ->
  stored <> [] ->
  resolved_config H settings = inr config ->
  setup_logging H settings w =
  match config_diff stored config with
  | inl e => (Raised e, w)
  | inr [] => (Returned, w)
  | inr diff => (Returned, warn diff w)
  end.
Proof.
  intros Hplc Hne Hcfg. unfold setup_logging.
  by rewrite Hcfg, Hplc, (truthy_Some _ Hne).
Qed.

(** The process is not configured: lines 92-105. *)
Lemma setup_logging_unconfigured w config :
  truthy (PROCESS_LOGGING_CONFIG w) = false ->
  resolved_config H settings = inr config ->
  setup_logging H settings w = apply_config H settings config w.
Proof.
  intros Hplc Hcfg. unfold setup_logging. by rewrite Hcfg, Hplc.
Qed.


Lemma config_diff_nothing_new stored config :
  nothing_new stored config = true -> config_diff stored config = inr [].
Proof.
  induction config as [|[k x] config IH]; [done |]. simpl.
  intros [Hk Hrest]%andb_true_iff.
  destruct (dict_get k stored) as [old|]; [| done].
  by rewrite (IH Hrest), Hk.
Qed.


(** The comparison reads the stored configuration at the keys of the new
    one and nowhere else. *)
Lemma config_diff_ext stored stored' config :
  (forall k, k ∈ keys config -> dict_get k stored' = dict_get k stored) ->
  config_diff stored' config = config_diff stored config.
Proof.
  induction config as [|[k x] config IH]; [done |]. intros Hext. simpl.
  rewrite (Hext k) by left.
  rewrite IH; [done |]. intros k' Hk'. apply Hext. by right.
Qed.

(** When the stored configuration has every key of the new one, the
    comparison returns the entries that differ, in the order of the new
    configuration. *)
Lemma config_diff_differing stored config :
  (forall k, k ∈ keys config -> is_Some (dict_get k stored)) ->
  config_diff stored config = inr (differing stored config).
Proof.
  induction config as [|[k x] config IH]; [done |]. intros Hkeys.
  cbn [config_diff]. destruct (Hkeys k) as [old Hold]; [left |].
  rewrite Hold, IH by (intros k' Hk'; apply Hkeys; by right).
  unfold differing. cbn [List.filter]. rewrite Hold.
  by destruct (py_eq old x).
Qed.

(** A conflicting repeated call: the warning carries the entries that
    differ and nothing else changes. *)
Lemma setup_logging_conflict w stored config :
  PROCESS_LOGGING_CONFIG w = Some stored ->
  stored <> [] ->
  resolved_config H settings = inr config ->
  (forall k, k ∈ keys config -> is_Some (dict_get k stored)) ->
  differing stored config <> [] ->
  setup_logging H settings w = (Returned, warn (differing stored config) w).
Proof.
  intros Hplc Hne Hcfg Hkeys Hdiff.
  rewrite (setup_logging_configured _ _ _ Hplc Hne Hcfg).
  rewrite (config_diff_differing _ _ Hkeys).
  by destruct (differing stored config).
Qed.

(** A key the stored configuration lacks makes the comparison raise. *)
Lemma config_diff_KeyError stored config k :
  k ∈ keys config -> dict_get k stored = None ->
  exists k', config_diff stored config = inl (KeyError k').
Proof.
  induction config as [|[k0 x] config IH]; [by intros ?%elem_of_nil |].
  simpl. intros Hin Hget.
  destruct (dict_get k0 stored) as [old|] eqn:Hk0; [| by exists k0].
  apply elem_of_cons in Hin as [-> | Hin]; [congruence |].
  destruct (IH Hin Hget) as [k' ->]. by exists k'.
Qed.

End setup_facts.

(** C8: errors about the file reach the caller.  When the path of the
    settings does not exist, the bundled default path is the one loaded;
    when there is no file at the default path either, [setup_logging]
    raises [NotFoundError]; when the text of the loaded file is rejected
    by the parser, or parses to something that is not a mapping,
    [setup_logging] raises [ParseError].  In each case the process is left
    as it was. *)
Theorem file_errors_surface (H : host) (settings : LoggingSettings) (w : world) :
  (files H (settings_path settings) = None ->
   config_path H settings = DEFAULT_LOGGING_SETTINGS_PATH H)
  /\ (files H (settings_path settings) = None ->
      files H (DEFAULT_LOGGING_SETTINGS_PATH H) = None ->
      setup_logging H settings w = (Raised NotFoundError, w))
  /\ (forall text,
      files H (config_path H settings) = Some text ->
      safe_load H text = None ->
      setup_logging H settings w = (Raised ParseError, w))
  /\ (forall text v,
      files H (config_path H settings) = Some text ->
      safe_load H text = Some v ->
      (forall d, v <> VDict d) ->
      setup_logging H settings w = (Raised ParseError, w)).
Proof.
  assert (files H (settings_path settings) = None ->
          config_path H settings = DEFAULT_LOGGING_SETTINGS_PATH H) as Hpath.
  { intros Hnone. unfold config_path, path_exists. rewrite Hnone.
    rewrite bool_decide_eq_false_2; [done |]. by intros [? ?]. }
  split; [done | split; [| split]].
  - intros Hnone Hdef.
    unfold setup_logging, resolved_config, load_logging_config, read_text.
    by rewrite (Hpath Hnone), Hdef.
  - intros text Hfile Hyaml.
    unfold setup_logging, resolved_config, load_logging_config, read_text.
    by rewrite Hfile, Hyaml.
  - intros text v Hfile Hyaml Hbad.
    unfold setup_logging, resolved_config, load_logging_config, read_text.
    rewrite Hfile, Hyaml.
    destruct v as [| | | | |d|]; try done. by destruct (Hbad d).
Qed.

Lemma file_errors_surface_witness :
  let none := Example.table_host [] [] [] (fun _ => true) ∅ in
  let list := Example.file_host (VList [VStr "a"]) ∅ in
  let broken :=
    Example.table_host [(Example.yml, "a: [")] [] [] (fun _ => true) ∅ in
  config_path none Example.app_settings = "/prefect/logging/logging.yml"
  /\ setup_logging none Example.app_settings Example.start
     = (Raised NotFoundError, Example.start)
  /\ setup_logging broken Example.app_settings Example.start
     = (Raised ParseError, Example.start)
  /\ setup_logging list Example.app_settings Example.start
     = (Raised ParseError, Example.start).
Proof.
  intros none list broken.
  destruct (file_errors_surface none Example.app_settings Example.start)
    as (Hpath & Hmissing & _ & _).
  destruct (file_errors_surface broken Example.app_settings Example.start)
    as (_ & _ & Hbroken & _).
  destruct (file_errors_surface list Example.app_settings Example.start)
    as (_ & _ & _ & Hlist).
  split; [| split; [| split]].
  - apply Hpath. reflexivity.
  - apply Hmissing; reflexivity.
  - apply (Hbroken "a: ["); reflexivity.
  - apply (Hlist "document" (VList [VStr "a"])); [reflexivity | reflexivity |].
    discriminate.
Defined.

(** ** The extra loggers *)

Section extra_facts.
Implicit Types (reg : gmap string logger) (l T : logger) (name n : string).

Lemma getLogger_insert_eq name l reg : getLogger name (<[name := l]> reg) = l.
Proof. unfold getLogger. by rewrite lookup_insert_eq. Qed.

Lemma getLogger_insert_ne name n l reg :
  n <> name -> getLogger n (<[name := l]> reg) = getLogger n reg.
Proof. intros Hne. unfold getLogger. by rewrite lookup_insert_ne. Qed.

(** Registering a logger does not change what [getLogger] returns. *)
Lemma getLogger_register name n reg :
  getLogger n (<[name := getLogger name reg]> reg) = getLogger n reg.
Proof.
  destruct (decide (n = name)) as [->|Hne].
  - apply getLogger_insert_eq.
  - by apply getLogger_insert_ne.
Qed.

Lemma copy_step_template T h : h ∈ handlers T -> copy_step T h T = T.
Proof.
  intros Hin. destruct T as [hs lv pr]. simpl in Hin.
  unfold copy_step, addHandler. simpl.
  rewrite bool_decide_eq_true_2 by done.
  by destruct (Z.eqb lv NOTSET).
Qed.

Lemma copy_handler_other name h reg n :
  n <> name -> getLogger n (copy_handler name h reg) = getLogger n reg.
Proof.
  intros Hne. unfold copy_handler.
  rewrite getLogger_insert_ne by done.
  destruct (Z.eqb _ NOTSET); rewrite ?getLogger_insert_ne by done; done.
Qed.

Lemma addHandler_attached h l : h ∈ handlers l -> addHandler h l = l.
Proof.
  intros Hin. unfold addHandler. rewrite bool_decide_eq_true_2 by done.
  by destruct l.
Qed.

Lemma setLevel_same l : setLevel (level l) l = l.
Proof. by destruct l. Qed.

Lemma copy_handler_self name h reg :
  h ∈ handlers (getLogger "prefect.extra" reg) ->
  getLogger name (copy_handler name h reg)
  = copy_step (getLogger "prefect.extra" reg) h (getLogger name reg).
Proof.
  intros Hin. unfold copy_handler, copy_step.
  rewrite !getLogger_insert_eq.
  destruct (decide ("prefect.extra" = name)) as [<-|Hne].
  - rewrite !getLogger_insert_eq, (addHandler_attached _ _ Hin).
    destruct (Z.eqb (level (getLogger "prefect.extra" reg)) NOTSET).
    + by rewrite !getLogger_insert_eq, setLevel_same.
    + by rewrite !getLogger_insert_eq.
  - rewrite (getLogger_insert_ne name "prefect.extra") by done.
    destruct (Z.eqb (level (addHandler h (getLogger name reg))) NOTSET).
    + rewrite !getLogger_insert_eq.
      by rewrite !(getLogger_insert_ne name "prefect.extra") by done.
    + rewrite !getLogger_insert_eq.
      by rewrite !(getLogger_insert_ne name "prefect.extra") by done.
Qed.

(** The inner loop, told on the loggers. *)
Lemma copy_loop name T hs : forall reg,
  getLogger "prefect.extra" reg = T ->
  (forall h, h ∈ hs -> h ∈ handlers T) ->
  let reg' := foldl (fun reg h => copy_handler name h reg) reg hs in
  getLogger "prefect.extra" reg' = T
  /\ (forall n, n <> name -> getLogger n reg' = getLogger n reg)
  /\ getLogger name reg'
     = foldl (fun l h => copy_step T h l) (getLogger name reg) hs.
Proof.
  induction hs as [|h hs IH]; intros reg HT Hhs; [done |].
  cbn [foldl].
  assert (h ∈ handlers (getLogger "prefect.extra" reg)) as Hh.
  { rewrite HT. apply Hhs. left. }
  assert (getLogger "prefect.extra" (copy_handler name h reg) = T) as HT'.
  { destruct (decide ("prefect.extra" = name)) as [<-|Hne].
    - rewrite (copy_handler_self _ _ _ Hh), HT.
      apply copy_step_template. apply Hhs. left.
    - by rewrite copy_handler_other. }
  destruct (IH (copy_handler name h reg) HT') as (H1 & H2 & H3).
  { intros h' Hh'. apply Hhs. by right. }
  split; [done | split].
  - intros n Hne. by rewrite (H2 n Hne), copy_handler_other.
  - by rewrite H3, (copy_handler_self _ _ _ Hh), HT.
Qed.

Lemma copied_level_idem T l l' :
  level l' = copied_level T l -> copied_level T l' = copied_level T l.
Proof.
  unfold copied_level. intros ->.
  destruct (Z.eqb_spec (level l) NOTSET) as [Hl|Hl].
  - by destruct (Z.eqb (level T) NOTSET).
  - by rewrite (proj2 (Z.eqb_neq _ _) Hl).
Qed.

Lemma copy_step_fields T h l :
  handlers l ⊆ handlers (copy_step T h l)
  /\ h ∈ handlers (copy_step T h l)
  /\ level (copy_step T h l) = copied_level T l
  /\ propagate (copy_step T h l) = propagate T.
Proof.
  unfold copy_step, copied_level, addHandler. cbn [level].
  destruct (Z.eqb (level l) NOTSET); cbn [handlers level propagate
    set_propagate setLevel];
    (split; [| split; [| done]]).
  all: case_bool_decide; try done.
  all: try (intros x Hx; apply elem_of_app; by left).
  all: apply elem_of_app; right; apply list_elem_of_singleton; done.
Qed.

Lemma copy_steps_fields T hs : forall l,
  let r := foldl (fun l h => copy_step T h l) l hs in
  handlers l ⊆ handlers r
  /\ hs ⊆ handlers r
  /\ (hs <> [] -> level r = copied_level T l /\ propagate r = propagate T).
Proof.
  induction hs as [|h hs IH]; intros l; cbn [foldl].
  - split; [done | split; [| done]]. by intros x ?%elem_of_nil.
  - destruct (IH (copy_step T h l)) as (Hsub & Hhs & Hlv).
    destruct (copy_step_fields T h l) as (Hl & Hh & Hlevel & Hprop).
    split; [by etrans | split].
    + intros x [-> | Hx]%elem_of_cons; [by apply Hsub | by apply Hhs].
    + intros _. destruct hs as [|h' hs']; [done |].
      destruct Hlv as [-> ->]; [done |].
      split; [by apply copied_level_idem | done].
Qed.

(** Lines 98-103 for one name. *)
Lemma copy_extra_fields reg name T :
  getLogger "prefect.extra" reg = T ->
  getLogger "prefect.extra" (copy_extra reg name) = T
  /\ (forall n, n <> name -> getLogger n (copy_extra reg name) = getLogger n reg)
  /\ getLogger name (copy_extra reg name)
     = foldl (fun l h => copy_step T h l) (getLogger name reg) (handlers T).
Proof.
  intros HT. unfold copy_extra. rewrite getLogger_register, HT.
  destruct (copy_loop name T (handlers T)
              (<[name := getLogger name reg]> reg)) as (H1 & H2 & H3).
  { by rewrite getLogger_register. }
  { done. }
  split; [done | split].
  - intros n Hne. by rewrite (H2 n Hne), getLogger_register.
  - by rewrite H3, getLogger_register.
Qed.

Lemma copied_again T l0 l :
  handlers T <> [] ->
  l = l0 \/ copied T l0 l ->
  copied T l0 (foldl (fun l h => copy_step T h l) l (handlers T)).
Proof.
  intros Hne Hl.
  destruct (copy_steps_fields T (handlers T) l) as (_ & Hhs & Hlv).
  destruct (Hlv Hne) as [Hlevel Hprop].
  split; [done | split; [| done]].
  rewrite Hlevel. destruct Hl as [-> | (_ & Hl & _)]; [done |].
  by apply copied_level_idem.
Qed.

(** The loop over the names: a logger that has received the
    configuration keeps it, and every name of the list receives it. *)
Lemma copy_all_fields reg0 T names : forall reg,
  handlers T <> [] ->
  getLogger "prefect.extra" reg = T ->
  (forall n, getLogger n reg = getLogger n reg0
             \/ copied T (getLogger n reg0) (getLogger n reg)) ->
  forall n, n ∈ names \/ copied T (getLogger n reg0) (getLogger n reg) ->
  copied T (getLogger n reg0) (getLogger n (foldl copy_extra reg names)).
Proof.
  induction names as [|name names IH]; intros reg Hne HT Hinv n Hn.
  - by destruct Hn as [?%elem_of_nil | ?].
  - cbn [foldl].
    destruct (copy_extra_fields reg name T HT) as (HT' & Hother & Hself).
    assert (copied T (getLogger name reg0) (getLogger name (copy_extra reg name)))
      as Hname.
    { rewrite Hself. by apply copied_again. }
    apply IH; [done | done | |].
    + intros m. destruct (decide (m = name)) as [->|Hm]; [by right |].
      by rewrite (Hother m Hm).
    + destruct (decide (n = name)) as [->|Hm]; [by right |].
      rewrite (Hother n Hm).
      destruct Hn as [[-> | Hin]%elem_of_cons | Hc]; [done | by left | by right].
Qed.

(** With at least one handler on the 'prefect.extra' logger, every extra
    logger receives its handlers, its level if its own was NOTSET, and
    its propagation flag. *)
Lemma copy_to_extra_loggers_copied settings reg name :
  handlers (getLogger "prefect.extra" reg) <> [] ->
  name ∈ get_extra_loggers settings ->
  copied (getLogger "prefect.extra" reg) (getLogger name reg)
         (getLogger name (copy_to_extra_loggers settings reg)).
Proof.
  intros Hne Hin. unfold copy_to_extra_loggers.
  rewrite <- (getLogger_register "prefect.extra" name reg) at 1.
  apply copy_all_fields.
  - done.
  - apply getLogger_register.
  - intros n. left. by rewrite getLogger_register.
  - by left.
Qed.

(** Without a handler on the 'prefect.extra' logger, no logger
    changes. *)
Lemma copy_to_extra_loggers_no_handlers settings reg n :
  handlers (getLogger "prefect.extra" reg) = [] ->
  getLogger n (copy_to_extra_loggers settings reg) = getLogger n reg.
Proof.
  intros Hnil. unfold copy_to_extra_loggers.
  enough (forall names reg',
            handlers (getLogger "prefect.extra" reg') = [] ->
            getLogger n (foldl copy_extra reg' names) = getLogger n reg')
    as Hgen.
  { rewrite Hgen; [apply getLogger_register |].
    by rewrite getLogger_register. }
  induction names as [|name names IH]; intros reg' Hnil'; [done |].
  cbn [foldl].
  assert (forall m, getLogger m (copy_extra reg' name) = getLogger m reg')
    as Hsame.
  { intros m. unfold copy_extra.
    rewrite getLogger_register, Hnil'. apply getLogger_register. }
  rewrite IH; [apply Hsame | by rewrite Hsame].
Qed.

End extra_facts.


Lemma checking_host_rejects (v : value) (after : gmap string logger) :
  rejects_without_version (checking_host v after).
Proof.
  intros config reg Hnone. unfold checking_host, Example.table_host.
  cbn [dictConfig]. rewrite Hnone.
  rewrite bool_decide_eq_false_2; [done |]. by intros [? ?].
Qed.


(** C9: when the process is configured, the comparison runs over the
    top-level keys of the new configuration only: what the stored
    configuration holds at other keys does not change its result.  So a
    new configuration whose every top-level entry is in the stored one
    with an equal value, even if it has fewer entries, produces no
    warning; past the guard of line 77 the call returns and leaves the
    process as it was. *)
Theorem dropped_keys_no_warning (H : host) (settings : LoggingSettings)
    (w : world) (stored config : dict) :
  PROCESS_LOGGING_CONFIG w = Some stored ->
  resolved_config H settings = inr config ->
  nothing_new stored config = true ->
  warned (setup_logging H settings w).2 = warned w
  /\ (stored <> [] -> setup_logging H settings w = (Returned, w))
  /\ forall stored',
       (forall k, k ∈ keys config -> dict_get k stored' = dict_get k stored) ->
       config_diff stored' config = config_diff stored config.
Proof.
  intros Hplc Hcfg Hsame.
  assert (stored <> [] -> setup_logging H settings w = (Returned, w)) as Hret.
  { intros Hne. rewrite (setup_logging_configured _ _ _ _ _ Hplc Hne Hcfg).
    by rewrite (config_diff_nothing_new _ _ Hsame). }
  split; [| split; [done |]].
  - destruct stored as [|e stored].
    + rewrite (setup_logging_unconfigured _ _ _ config) by (by rewrite ?Hplc).
      unfold apply_config.
      by destruct (dictConfig H config (loggers w)) as [[] reg].
    + by rewrite Hret.
  - intros stored'. apply config_diff_ext.
Qed.

Lemma dropped_keys_no_warning_witness :
  let H := Example.file_host (VDict Example.version1) ∅ in
  let w := Example.configured_with Example.with_handlers in
  setup_logging H Example.app_settings w = (Returned, w).
Proof.
  intros H w.
  refine (proj1 (proj2 (dropped_keys_no_warning H Example.app_settings w
                          Example.with_handlers Example.version1 _ _ _)) _).
  - reflexivity.
  - reflexivity.
  - reflexivity.
  - discriminate.
Defined.

(** C10: the guard of line 77 tests the stored configuration for truth.
    If the first configuration applied is the empty mapping, the stored
    configuration is the empty mapping, and a later call whose
    configuration [dictConfig] accepts goes past the guard: it calls
    [dictConfig] with the new configuration, copies to the extra loggers
    and stores the new configuration in place of the old one. *)
Theorem empty_stored_configuration_is_replaced (H H' : host)
    (settings settings' : LoggingSettings) (w : world) (config : dict)
    (reg0 reg : gmap string logger) :
  truthy (PROCESS_LOGGING_CONFIG w) = false ->
  resolved_config H settings = inr [] ->
  dictConfig H [] (loggers w) = (true, reg0) ->
  resolved_config H' settings' = inr config ->
  dictConfig H' config (copy_to_extra_loggers settings reg0) = (true, reg) ->
  let w1 := (setup_logging H settings w).2 in
  PROCESS_LOGGING_CONFIG w1 = Some []
  /\ setup_logging H' settings' w1 =
     (Returned,
      {| PROCESS_LOGGING_CONFIG := Some config;
         loggers := copy_to_extra_loggers settings' reg;
         warned := warned w;
         configured := (configured w ++ [[]]) ++ [config] |}).
Proof.
  intros Hplc Hcfg Hdc Hcfg' Hdc' w1. subst w1.
  rewrite (setup_logging_unconfigured _ _ _ _ Hplc Hcfg).
  unfold apply_config at 1 2. rewrite Hdc. cbn [fst snd].
  split; [done |].
  rewrite (setup_logging_unconfigured _ _ _ config); [| done | done].
  unfold apply_config. cbn [loggers]. by rewrite Hdc'.
Qed.

Lemma empty_stored_configuration_is_replaced_witness :
  let H := Example.file_host (VDict []) ∅ in
  let H' := Example.file_host (VDict Example.version1) Example.full_extra in
  let w1 := (setup_logging H Example.app_settings Example.start).2 in
  PROCESS_LOGGING_CONFIG w1 = Some []
  /\ setup_logging H' Example.app_settings w1 =
     (Returned,
      {| PROCESS_LOGGING_CONFIG := Some Example.version1;
         loggers := copy_to_extra_loggers Example.app_settings Example.full_extra;
         warned := [];
         configured := [[]; Example.version1] |}).
Proof.
  intros H H'.
  refine (empty_stored_configuration_is_replaced H H' Example.app_settings
            Example.app_settings Example.start Example.version1
            ∅ Example.full_extra _ _ _ _ _).
  - reflexivity.
  - reflexivity.
  - reflexivity.
  - reflexivity.
  - reflexivity.
Defined.

(** C2, at the failing input: the process is configured with
    [{version: 1}] and the new configuration is
    [{version: 1, handlers: {}}].  The comparison of line 82 looks up
    [handlers] in the stored configuration and the call raises
    [KeyError]; no warning is emitted. *)
Theorem new_top_level_key_raises :
  let H := Example.file_host (VDict Example.with_handlers) ∅ in
  let w := Example.configured_with Example.version1 in
  resolved_config H Example.app_settings = inr Example.with_handlers
  /\ setup_logging H Example.app_settings w = (Raised (KeyError "handlers"), w).
Proof. split; reflexivity. Qed.

(** The same for every configured process: a new configuration with a
    top-level key the stored one lacks makes the call raise. *)
Lemma setup_logging_KeyError (H : host) (settings : LoggingSettings)
    (w : world) (stored config : dict) (k : string) :
  PROCESS_LOGGING_CONFIG w = Some stored ->
  stored <> [] ->
  resolved_config H settings = inr config ->
  k ∈ keys config ->
  dict_get k stored = None ->
  exists k', setup_logging H settings w = (Raised (KeyError k'), w).
Proof.
  intros Hplc Hne Hcfg Hin Hget.
  rewrite (setup_logging_configured _ _ _ _ _ Hplc Hne Hcfg).
  destruct (config_diff_KeyError _ _ _ Hin Hget) as [k' ->]. by exists k'.
Qed.

(** C4, at the failing input: [dictConfig] leaves the 'prefect.extra'
    logger with level DEBUG, propagation off and no handler, and
    ['vendor.lib'] is an extra logger.  After the first call
    ['vendor.lib'] still has the level NOTSET and propagation on: the
    level and the flag are copied inside the loop over the handlers, which
    has nothing to run over. *)
Theorem extra_logger_without_handlers :
  let H := Example.file_host (VDict Example.version1) Example.bare_extra in
  let w' := (setup_logging H Example.app_settings Example.start).2 in
  get_extra_loggers Example.app_settings = ["vendor.lib"]
  /\ (setup_logging H Example.app_settings Example.start).1 = Returned
  /\ getLogger "prefect.extra" (loggers w')
     = {| handlers := []; level := 10; propagate := false |}
  /\ getLogger "vendor.lib" (loggers w')
     = {| handlers := []; level := NOTSET; propagate := true |}.
Proof. repeat split; vm_compute; reflexivity. Qed.

(** ** The testable properties of the specification, on examples *)

(** A reference to a setting that exists, and to one that does not. *)
Example reference_to_setting :
  interpolate Example.app_settings (VStr "{{log_level}}") = VStr "WARNING"
  /\ interpolate Example.app_settings (VStr "{{missing_attr}}") = VNone.
Proof. split; reflexivity. Qed.

(** Strings that do not match pass through. *)
Example not_references :
  interpolate Example.app_settings (VStr "{{not closed") = VStr "{{not closed"
  /\ interpolate Example.app_settings (VStr "plain text") = VStr "plain text".
Proof. split; reflexivity. Qed.

(** A maximal run of characters that are not alphanumeric becomes one
    underscore. *)
Example to_envvar_runs :
  to_envvar "PREFECT_LOGGING_LOGGERS_PREFECT.EXTRA--LEVEL"
  = "PREFECT_LOGGING_LOGGERS_PREFECT_EXTRA_LEVEL".
Proof. reflexivity. Qed.

(** A repeated call with a configuration that differs at [handlers]: one
    warning that names [handlers], no second call of [dictConfig], the
    stored configuration as before. *)
Example conflicting_repeated_setup :
  let stored := [("version", VInt 1); ("handlers", VDict [("console", VNone)])] in
  let new := [("version", VInt 1); ("handlers", VDict [("file", VNone)])] in
  let w := Example.configured_with stored in
  let r := setup_logging (Example.file_host (VDict new) ∅) Example.app_settings w in
  r.1 = Returned
  /\ warned r.2 = [[("handlers", VDict [("file", VNone)])]]
  /\ PROCESS_LOGGING_CONFIG r.2 = Some stored
  /\ configured r.2 = configured w.
Proof. repeat split. Qed.

(** The 'prefect.extra' logger with two handlers, level DEBUG and no
    propagation: the extra logger ['vendor.lib'] receives all three. *)
Example extra_logger_propagation :
  let H := Example.file_host (VDict Example.version1) Example.full_extra in
  let w' := (setup_logging H Example.app_settings Example.start).2 in
  getLogger "vendor.lib" (loggers w')
  = {| handlers := [1; 2]; level := 10; propagate := false |}.
Proof. vm_compute. reflexivity. Qed.

(** * Further properties *)

(** ** to_envvar and the name of the override variable *)

Section envvar_facts.
Import Text.

Lemma underscore_not_alnum : is_alnum "_" = false.
Proof. reflexivity. Qed.

Lemma to_envvar_from_normal (s : string) (in_run : bool) :
  normal_from in_run (to_envvar_from in_run s) = true.
Proof.
  revert in_run. induction s as [|c s IH]; intros in_run; [done |].
  cbn [to_envvar_from]. destruct (is_alnum c) eqn:Hc.
  - cbn [normal_from]. rewrite Hc. apply IH.
  - destruct in_run; [apply IH |].
    cbn [normal_from]. rewrite underscore_not_alnum. simpl. apply IH.
Qed.

Lemma normal_from_fixed (s : string) (in_run : bool) :
  normal_from in_run s = true -> to_envvar_from in_run s = s.
Proof.
  revert in_run. induction s as [|c s IH]; intros in_run; [done |].
  cbn [normal_from to_envvar_from]. destruct (is_alnum c) eqn:Hc.
  - intros Hn. by rewrite (IH _ Hn).
  - intros [[Hu Hr]%andb_true_iff Hn]%andb_true_iff.
    apply Ascii.eqb_eq in Hu as ->. apply negb_true_iff in Hr as ->.
    by rewrite (IH _ Hn).
Qed.

Lemma normal_from_characters (s : string) (b : bool) :
  normal_from b s = true ->
  forallb (fun c => is_alnum c || Ascii.eqb c "_") (list_ascii_of_string s)
  = true.
Proof.
  revert b. induction s as [|c s IH]; intros b; [done |].
  cbn [normal_from list_ascii_of_string forallb].
  destruct (is_alnum c) eqn:Hc; simpl.
  - apply IH.
  - intros [[-> _]%andb_true_iff Hn]%andb_true_iff. simpl. by apply (IH true).
Qed.

Lemma normal_from_no_double (s : string) (b : bool) (x y : string) :
  normal_from b s = true -> s <> x +:+ "__" +:+ y.
Proof.
  revert s b. induction x as [|c x IH]; intros s b Hn Hs; subst s.
  - rewrite append_nil_l, !append_cons in Hn.
    cbn [normal_from] in Hn. rewrite underscore_not_alnum in Hn.
    simpl in Hn. by rewrite andb_false_r in Hn.
  - rewrite append_cons in Hn. cbn [normal_from] in Hn.
    destruct (is_alnum c).
    + by apply (IH _ _ Hn).
    + apply andb_true_iff in Hn as [_ Hn]. by apply (IH _ _ Hn).
Qed.

Lemma upper_char_not_lower (c : ascii) : is_lower (upper_char c) = false.
Proof. by destruct c as [[] [] [] [] [] [] [] []]. Qed.

Lemma upper_char_idem (c : ascii) : upper_char (upper_char c) = upper_char c.
Proof. by destruct c as [[] [] [] [] [] [] [] []]. Qed.

Lemma upper_idem (s : string) : upper (upper s) = upper s.
Proof.
  induction s as [|c s IH]; [done |]. simpl.
  by rewrite upper_char_idem, IH.
Qed.

Lemma upper_join (parts : list string) :
  upper (join "_" parts) = join "_" (map upper parts).
Proof.
  induction parts as [|p [|q parts] IH]; [done | done |].
  change (join "_" (p :: q :: parts)) with (p +:+ "_" +:+ join "_" (q :: parts)).
  change (join "_" (map upper (p :: q :: parts)))
    with (upper p +:+ "_" +:+ join "_" (map upper (q :: parts))).
  by rewrite !upper_app, IH.
Qed.

Lemma to_envvar_from_env_chars (s : string) (b : bool) :
  forallb env_char (list_ascii_of_string (to_envvar_from b (upper s))) = true.
Proof.
  revert b. induction s as [|c s IH]; intros b; [done |].
  cbn [upper to_envvar_from].
  destruct (is_alnum (upper_char c)) eqn:Hc.
  - cbn [list_ascii_of_string forallb]. rewrite IH, andb_true_r.
    unfold env_char. unfold is_alnum in Hc.
    rewrite upper_char_not_lower, orb_false_r in Hc.
    by rewrite Hc.
  - destruct b; [apply IH |].
    cbn [list_ascii_of_string forallb]. by rewrite IH.
Qed.

End envvar_facts.

(** X1: whatever the string, the name [to_envvar] returns is made of
    characters of [[0-9a-zA-Z_]] only and has no two underscores in a
    row. *)
Theorem to_envvar_normal_form (s : string) :
  forallb (fun c => Text.is_alnum c || Ascii.eqb c "_")
          (list_ascii_of_string (to_envvar s)) = true
  /\ forall x y, to_envvar s <> x +:+ "__" +:+ y.
Proof.
  pose proof (to_envvar_from_normal s false) as Hn. split.
  - by apply (normal_from_characters _ false).
  - intros x y. by apply (normal_from_no_double _ false).
Qed.

(** X2: [to_envvar] is idempotent: a name it has returned is returned
    unchanged. *)
Theorem to_envvar_idempotent (s : string) :
  to_envvar (to_envvar s) = to_envvar s.
Proof. apply normal_from_fixed, to_envvar_from_normal. Qed.

(** X3: the name looked up in the environment has digits, upper-case
    letters and underscores only, whatever the prefix and the keys. *)
Theorem env_name_characters (settings : LoggingSettings) (key_tup : key_tuple) :
  forallb env_char (list_ascii_of_string (env_name settings key_tup)) = true.
Proof. apply to_envvar_from_env_chars. Qed.

(** X4: the name does not depend on the case of the letters of the keys:
    two paths that differ in case only are overridden by the same
    variable. *)
Theorem env_name_ignores_case (settings : LoggingSettings) (key_tup : key_tuple) :
  env_name settings (map Text.upper key_tup) = env_name settings key_tup.
Proof.
  unfold env_name. f_equal.
  by rewrite !upper_app, !upper_join, map_map, (map_ext _ _ upper_idem).
Qed.

(** X5: the name does not show where a path is cut into keys: a key
    nested under another and the single key made of the two joined by an
    underscore are overridden by the same variable. *)
Theorem env_name_ignores_nesting (settings : LoggingSettings)
    (a b : string) (rest : key_tuple) :
  env_name settings (a :: b :: rest)
  = env_name settings ((a +:+ "_" +:+ b) :: rest).
Proof.
  unfold env_name. do 3 f_equal.
  destruct rest as [|c rest]; [done |].
  change (Text.join "_" (a :: b :: c :: rest))
    with (a +:+ "_" +:+ b +:+ "_" +:+ Text.join "_" (c :: rest)).
  change (Text.join "_" ((a +:+ "_" +:+ b) :: c :: rest))
    with ((a +:+ "_" +:+ b) +:+ "_" +:+ Text.join "_" (c :: rest)).
  by rewrite !append_assoc.
Qed.

(** X6: the test of line 47 never decides: every string the pattern of
    [interpolated_settings] matches begins with the two opening braces
    the test asks for. *)
Theorem startswith_guard_is_implied (s name : string) :
  interpolated_settings s = Some name -> Text.startswith "{{" s = true.
Proof.
  unfold interpolated_settings, Text.startswith.
  destruct s as [|c0 [|c1 rest]]; try done.
  { by destruct c0 as [[] [] [] [] [] [] [] []]. }
  destruct (Ascii.eqb_spec c0 "{") as [->|Hc0];
    [| by destruct c0 as [[] [] [] [] [] [] [] []]].
  destruct (Ascii.eqb_spec c1 "{") as [->|Hc1];
    [| by destruct c1 as [[] [] [] [] [] [] [] []]].
  intros _. simpl. by destruct rest.
Qed.

Lemma startswith_guard_is_implied_witness :
  Text.startswith "{{" "{{log_level}}" = true.
Proof.
  refine (startswith_guard_is_implied "{{log_level}}" "log_level" _).
  reflexivity.
Defined.

(** ** The loop of load_logging_config *)

Section loop_facts.
Context (H : host) (settings : LoggingSettings).
Implicit Types (fd : flatdict) (p : key_tuple).

Lemma keys_dict_set_in {K A : Type} `{EqDecision K} (k : K) (v : A)
    (d : list (K * A)) :
  k ∈ keys d -> keys (dict_set k v d) = keys d.
Proof.
  induction d as [|[k' v'] d IH]; [by intros ?%elem_of_nil |].
  cbn [dict_set]. intros Hin.
  destruct (decide (k' = k)) as [->|Hne]; [done |].
  apply elem_of_cons in Hin as [-> | Hin]; [done |].
  unfold keys in *. cbn [fmap list_fmap]. f_equal. by apply IH.
Qed.

Lemma untouched_resolve (e : key_tuple * value) :
  untouched H settings e = true -> resolve H settings e.1 e.2 = e.2.
Proof.
  unfold untouched, resolve, env_override.
  intros [Henv Hval]%andb_true_iff.
  assert (match environ H (env_name settings e.1) with
          | Some env_val =>
              if String.eqb env_val EmptyString then e.2 else VStr env_val
          | None => e.2
          end = e.2) as ->.
  { destruct (environ H (env_name settings e.1)); [by rewrite Henv | done]. }
  unfold interpolate. destruct e.2; try done.
  apply negb_true_iff in Hval. by rewrite Hval.
Qed.

End loop_facts.

(** X7: the loop of lines 35-58 neither adds nor removes an entry and
    keeps the order: the flat configuration has the same keys after it as
    before, whatever the environment and the settings. *)
Theorem resolve_all_keeps_keys (H : host) (settings : LoggingSettings)
    (fd : flatdict) :
  keys (resolve_all H settings fd) = keys fd.
Proof.
  unfold resolve_all.
  enough (forall todo fc,
            (forall e, e ∈ todo -> e.1 ∈ keys fc) ->
            keys (foldl (fun fc e => dict_set e.1 (resolve H settings e.1 e.2) fc)
                        fc todo) = keys fc) as Hgen.
  { apply Hgen. intros e He. by apply (list_elem_of_fmap_2 fst). }
  induction todo as [|e todo IH]; intros fc Hin; [done |].
  cbn [foldl].
  assert (keys (dict_set e.1 (resolve H settings e.1 e.2) fc) = keys fc) as Hk.
  { apply keys_dict_set_in, Hin. left. }
  rewrite IH; [done |].
  intros e' He'. rewrite Hk. apply Hin. by right.
Qed.

(** X8: when no entry has a non-empty environment variable and no value
    is a string that begins with two opening braces, the loop leaves the
    flat configuration as it is; an empty variable counts as unset. *)
Theorem resolve_all_nothing_to_resolve (H : host) (settings : LoggingSettings)
    (fd : flatdict) :
  distinct_keys fd = true ->
  forallb (untouched H settings) fd = true ->
  resolve_all H settings fd = fd.
Proof.
  intros Hnd%distinct_keys_NoDup Hall.
  rewrite resolve_all_map_entries by done.
  unfold map_entries.
  induction fd as [|[p v] fd IH]; [done |].
  cbn [forallb] in Hall. apply andb_true_iff in Hall as [He Hall].
  cbn [map]. rewrite (untouched_resolve _ _ _ He). cbn [fst snd].
  f_equal. apply IH; [| done].
  unfold keys in Hnd. cbn [fmap list_fmap] in Hnd.
  by apply NoDup_cons in Hnd as [_ ?].
Qed.

Lemma resolve_all_nothing_to_resolve_witness :
  let H := Example.env_host [("APP_VERSION", EmptyString)] in
  let fd := [(Example.level_key, VStr "INFO"); (["version"], VInt 1);
             (["handlers"], VList [VStr "{{log_level}}"])] in
  resolve_all H Example.app_settings fd = fd.
Proof.
  intros H fd.
  refine (resolve_all_nothing_to_resolve H Example.app_settings fd _ _).
  - reflexivity.
  - reflexivity.
Defined.

(** ** The file that is loaded *)

(** X9: a settings path that exists is final: it is the file loaded, and
    when the parser rejects its text [setup_logging] raises [ParseError]
    and leaves the process as it was, whatever there is at the default
    path. *)
Theorem existing_settings_path_is_final (H : host) (settings : LoggingSettings)
    (w : world) (text : string) :
  files H (settings_path settings) = Some text ->
  config_path H settings = settings_path settings
  /\ (safe_load H text = None ->
      setup_logging H settings w = (Raised ParseError, w)).
Proof.
  intros Hfile.
  assert (config_path H settings = settings_path settings) as Hpath.
  { unfold config_path, path_exists. rewrite Hfile.
    by rewrite bool_decide_eq_true_2 by eauto. }
  split; [done |]. intros Hyaml.
  unfold setup_logging, resolved_config, load_logging_config, read_text.
  by rewrite Hpath, Hfile, Hyaml.
Qed.

Lemma existing_settings_path_is_final_witness :
  let H := Example.table_host
             [(Example.yml, "a: ["); ("/prefect/logging/logging.yml", "good")]
             [("good", VDict Example.version1)] [] (fun _ => true) ∅ in
  setup_logging H Example.app_settings Example.start
  = (Raised ParseError, Example.start).
Proof.
  intros H.
  refine (proj2 (existing_settings_path_is_final H Example.app_settings
                   Example.start "a: [" _) _).
  - reflexivity.
  - reflexivity.
Defined.

(** ** The guard of setup_logging *)

Section guard_facts.
Implicit Types (H : host) (settings : LoggingSettings) (w : world).

Lemma setup_logging_configured_frame H settings w :
  truthy (PROCESS_LOGGING_CONFIG w) = true ->
  let w' := (setup_logging H settings w).2 in
  PROCESS_LOGGING_CONFIG w' = PROCESS_LOGGING_CONFIG w
  /\ loggers w' = loggers w
  /\ configured w' = configured w.
Proof.
  intros Ht. unfold setup_logging.
  destruct (resolved_config H settings) as [e|config]; [done |].
  rewrite Ht.
  by destruct (config_diff _ config) as [e|[|d diff]].
Qed.

Lemma setup_logging_applied_somewhere H settings w :
  (forall c, PROCESS_LOGGING_CONFIG w = Some c -> c ∈ configured w) ->
  let w' := (setup_logging H settings w).2 in
  forall c, PROCESS_LOGGING_CONFIG w' = Some c -> c ∈ configured w'.
Proof.
  intros Hinv. unfold setup_logging.
  destruct (resolved_config H settings) as [e|config]; [done |].
  destruct (truthy (PROCESS_LOGGING_CONFIG w)).
  - by destruct (config_diff _ config) as [e|[|d diff]].
  - unfold apply_config.
    destruct (dictConfig H config (loggers w)) as [[] reg]; cbn.
    + intros c [= <-]. apply elem_of_app. right. by left.
    + intros c Hc. apply elem_of_app. left. by apply Hinv.
Qed.

Lemma run_calls_cons H settings (calls : list (host * LoggingSettings)) w :
  run_calls ((H, settings) :: calls) w
  = run_calls calls (setup_logging H settings w).2.
Proof. reflexivity. Qed.

End guard_facts.

(** X10: a configured process stays as it is.  Once the stored
    configuration is a non-empty mapping, no sequence of later calls,
    with whatever files, environment and settings, changes the stored
    configuration or a logger, or calls [dictConfig]. *)
Theorem configured_is_terminal (calls : list (host * LoggingSettings))
    (w : world) :
  truthy (PROCESS_LOGGING_CONFIG w) = true ->
  PROCESS_LOGGING_CONFIG (run_calls calls w) = PROCESS_LOGGING_CONFIG w
  /\ loggers (run_calls calls w) = loggers w
  /\ configured (run_calls calls w) = configured w.
Proof.
  revert w. induction calls as [|[H settings] calls IH]; intros w Ht; [done |].
  rewrite !run_calls_cons.
  destruct (setup_logging_configured_frame H settings w Ht) as (Hp & Hl & Hc).
  destruct (IH (setup_logging H settings w).2) as (Hp' & Hl' & Hc').
  { by rewrite Hp. }
  by rewrite Hp', Hl', Hc', Hp, Hl, Hc.
Qed.

Lemma configured_is_terminal_witness :
  let calls :=
    [(Example.file_host (VDict Example.with_handlers) Example.full_extra,
      Example.app_settings);
     (Example.file_host (VDict []) ∅, Example.app_settings);
     (Example.table_host [] [] [] (fun _ => true) ∅, Example.app_settings)] in
  let w := Example.configured_with Example.version1 in
  PROCESS_LOGGING_CONFIG (run_calls calls w) = Some Example.version1
  /\ loggers (run_calls calls w) = ∅
  /\ configured (run_calls calls w) = [Example.version1].
Proof.
  intros calls w.
  refine (configured_is_terminal calls w _).
  reflexivity.
Defined.

(** X11: a call emits one warning at most and keeps the earlier ones; a
    call that raises and a call of a process that is not configured emit
    none. *)
Theorem at_most_one_warning (H : host) (settings : LoggingSettings) (w : world) :
  exists new,
    warned (setup_logging H settings w).2 = warned w ++ new
    /\ length new <= 1
    /\ (truthy (PROCESS_LOGGING_CONFIG w) = false -> new = [])
    /\ ((setup_logging H settings w).1 <> Returned -> new = []).
Proof.
  assert (forall o w',
            warned w' = warned w ->
            exists new,
              warned (o, w').2 = warned w ++ new
              /\ length new <= 1
              /\ (truthy (PROCESS_LOGGING_CONFIG w) = false -> new = [])
              /\ ((o, w').1 <> Returned -> new = [])) as Hquiet.
  { intros o w' Hw. exists []. cbn [fst snd]. rewrite app_nil_r.
    repeat split; [done | simpl; lia]. }
  unfold setup_logging.
  destruct (resolved_config H settings) as [e|config]; [by apply Hquiet |].
  destruct (truthy (PROCESS_LOGGING_CONFIG w)).
  - destruct (config_diff _ config) as [e|[|d diff]];
      [by apply Hquiet | by apply Hquiet |].
    exists [d :: diff]. cbn. repeat split; [lia | done | done].
  - unfold apply_config.
    destruct (dictConfig H config (loggers w)) as [[] reg]; by apply Hquiet.
Qed.

(** X12: [dictConfig] is called by a process that is not configured and
    whose configuration has been loaded, once and with that
    configuration, and by nothing else: a call whose load fails and a call
    of a configured process do not reach it. *)
Theorem dictConfig_called_once (H : host) (settings : LoggingSettings) (w : world) :
  match resolved_config H settings with
  | inr config =>
      if truthy (PROCESS_LOGGING_CONFIG w)
      then configured (setup_logging H settings w).2 = configured w
      else configured (setup_logging H settings w).2 = configured w ++ [config]
  | inl _ => configured (setup_logging H settings w).2 = configured w
  end.
Proof.
  unfold setup_logging.
  destruct (resolved_config H settings) as [e|config]; [done |].
  destruct (truthy (PROCESS_LOGGING_CONFIG w)).
  - by destruct (config_diff _ config) as [e|[|d diff]].
  - unfold apply_config.
    by destruct (dictConfig H config (loggers w)) as [[] reg].
Qed.

(** X13: the stored configuration is always one that was handed to
    [dictConfig]: if that holds of a process, it holds after every
    sequence of calls. *)
Theorem stored_configuration_was_applied (calls : list (host * LoggingSettings))
    (w : world) :
  (forall c, PROCESS_LOGGING_CONFIG w = Some c -> c ∈ configured w) ->
  forall c, PROCESS_LOGGING_CONFIG (run_calls calls w) = Some c ->
            c ∈ configured (run_calls calls w).
Proof.
  revert w. induction calls as [|[H settings] calls IH]; intros w Hinv; [done |].
  rewrite !run_calls_cons.
  apply IH. by apply setup_logging_applied_somewhere.
Qed.

Lemma stored_configuration_was_applied_witness :
  let calls :=
    [(Example.table_host [(Example.yml, "document")]
        [("document", VDict Example.version1)] [] (fun _ => false) ∅,
      Example.app_settings);
     (Example.file_host (VDict Example.with_handlers) Example.full_extra,
      Example.app_settings);
     (Example.file_host (VDict Example.version1) ∅, Example.app_settings)] in
  Example.with_handlers ∈ configured (run_calls calls Example.start).
Proof.
  intros calls.
  refine (stored_configuration_was_applied calls Example.start _
            Example.with_handlers _).
  - intros c. discriminate.
  - reflexivity.
Defined.

(** X14: a repeated call whose configuration has no top-level key the
    stored one lacks, and a value that differs at some key: the call
    returns, emits one warning that carries the entries of the new
    configuration whose value differs from the stored one, in the order of
    the new configuration, and changes nothing else. *)
Theorem conflict_warning_content (H : host) (settings : LoggingSettings)
    (w : world) (stored config : dict) :
  PROCESS_LOGGING_CONFIG w = Some stored ->
  stored <> [] ->
  resolved_config H settings = inr config ->
  forallb (fun e => bool_decide (is_Some (dict_get e.1 stored))) config = true ->
  differing stored config <> [] ->
  setup_logging H settings w =
  (Returned,
   {| PROCESS_LOGGING_CONFIG := Some stored;
      loggers := loggers w;
      warned := warned w ++ [differing stored config];
      configured := configured w |}).
Proof.
  intros Hplc Hne Hcfg Hkeys Hdiff.
  rewrite (setup_logging_conflict H settings w stored config); try done.
  - unfold warn. by rewrite Hplc.
  - intros k Hk. rewrite forallb_forall in Hkeys.
    apply list_elem_of_fmap in Hk as ([k' x] & -> & Hin).
    apply list_elem_of_In in Hin.
    by apply (bool_decide_eq_true_1 _ (Hkeys _ Hin)).
Qed.

Lemma conflict_warning_content_witness :
  let stored := [("version", VInt 1);
                 ("handlers", VDict [("console", VNone)]);
                 ("root", VDict [("level", VStr "INFO")])] in
  let new := [("root", VDict [("level", VStr "DEBUG")]);
              ("version", VBool true);
              ("handlers", VDict [("file", VNone)])] in
  let w := Example.configured_with stored in
  setup_logging (Example.file_host (VDict new) ∅) Example.app_settings w =
  (Returned,
   {| PROCESS_LOGGING_CONFIG := Some stored;
      loggers := ∅;
      warned := [[("root", VDict [("level", VStr "DEBUG")]);
                  ("handlers", VDict [("file", VNone)])]];
      configured := [stored] |}).
Proof.
  intros stored new w.
  refine (conflict_warning_content (Example.file_host (VDict new) ∅)
            Example.app_settings w stored new _ _ _ _ _).
  - reflexivity.
  - discriminate.
  - reflexivity.
  - reflexivity.
  - discriminate.
Defined.

(** X15: when [dictConfig] raises, the error reaches the caller and the
    stored configuration is not set: the process is still unconfigured,
    and the next call whose configuration [dictConfig] accepts applies and
    stores it. *)
Theorem failed_apply_is_retried (H H' : host)
    (settings settings' : LoggingSettings) (w : world) (config config' : dict)
    (reg0 reg : gmap string logger) :
  truthy (PROCESS_LOGGING_CONFIG w) = false ->
  resolved_config H settings = inr config ->
  dictConfig H config (loggers w) = (false, reg0) ->
  resolved_config H' settings' = inr config' ->
  dictConfig H' config' reg0 = (true, reg) ->
  let r := setup_logging H settings w in
  r.1 = Raised ValueError
  /\ PROCESS_LOGGING_CONFIG r.2 = PROCESS_LOGGING_CONFIG w
  /\ setup_logging H' settings' r.2 =
     (Returned,
      {| PROCESS_LOGGING_CONFIG := Some config';
         loggers := copy_to_extra_loggers settings' reg;
         warned := warned w;
         configured := (configured w ++ [config]) ++ [config'] |}).
Proof.
  intros Hplc Hcfg Hdc Hcfg' Hdc' r. subst r.
  rewrite (setup_logging_unconfigured _ _ _ _ Hplc Hcfg).
  unfold apply_config at 1 2 3. rewrite Hdc. cbn [fst snd].
  split; [done | split; [done |]].
  rewrite (setup_logging_unconfigured _ _ _ config'); [| done | done].
  unfold apply_config. cbn [loggers]. by rewrite Hdc'.
Qed.

Lemma failed_apply_is_retried_witness :
  let H := Example.table_host [(Example.yml, "document")]
             [("document", VDict Example.with_handlers)] []
             (fun _ => false) ∅ in
  let H' := Example.file_host (VDict Example.version1) Example.full_extra in
  let r := setup_logging H Example.app_settings Example.start in
  r.1 = Raised ValueError
  /\ PROCESS_LOGGING_CONFIG r.2 = None
  /\ setup_logging H' Example.app_settings r.2 =
     (Returned,
      {| PROCESS_LOGGING_CONFIG := Some Example.version1;
         loggers := copy_to_extra_loggers Example.app_settings Example.full_extra;
         warned := [];
         configured := [Example.with_handlers; Example.version1] |}).
Proof.
  intros H H'.
  refine (failed_apply_is_retried H H' Example.app_settings Example.app_settings
            Example.start Example.with_handlers Example.version1
            ∅ Example.full_extra _ _ _ _ _).
  - reflexivity.
  - reflexivity.
  - reflexivity.
  - reflexivity.
  - reflexivity.
Defined.



(** ** The extra loggers *)

(** X17: on a first apply where [dictConfig] leaves the 'prefect.extra'
    logger with at least one handler, every logger named by
    [get_extra_loggers] ends with all the handlers of 'prefect.extra',
    with its level if its own was NOTSET and with its own level
    otherwise, and with its propagation flag. *)
Theorem extra_loggers_receive_configuration (H : host)
    (settings : LoggingSettings) (w : world) (config : dict)
    (reg : gmap string logger) (name : string) :
  truthy (PROCESS_LOGGING_CONFIG w) = false ->
  resolved_config H settings = inr config ->
  dictConfig H config (loggers w) = (true, reg) ->
  handlers (getLogger "prefect.extra" reg) <> [] ->
  name ∈ get_extra_loggers settings ->
  copied (getLogger "prefect.extra" reg) (getLogger name reg)
         (getLogger name (loggers (setup_logging H settings w).2)).
Proof.
  intros Hplc Hcfg Hdc Hne Hin.
  rewrite (setup_logging_unconfigured _ _ _ _ Hplc Hcfg).
  unfold apply_config. rewrite Hdc. cbn [snd loggers].
  by apply copy_to_extra_loggers_copied.
Qed.

Lemma extra_loggers_receive_configuration_witness :
  let H := Example.file_host (VDict Example.version1) Example.full_extra in
  copied {| handlers := [1; 2]; level := 10; propagate := false |}
         fresh_logger
         (getLogger "vendor.lib"
            (loggers (setup_logging H Example.app_settings Example.start).2)).
Proof.
  intros H.
  refine (extra_loggers_receive_configuration H Example.app_settings
            Example.start Example.version1 Example.full_extra "vendor.lib"
            _ _ _ _ _).
  - reflexivity.
  - reflexivity.
  - reflexivity.
  - discriminate.
  - left.
Defined.

Section copy_frame.
Implicit Types (reg : gmap string logger) (n name : string).

Lemma addHandler_NoDup (h : nat) (l : logger) :
  NoDup (handlers l) -> NoDup (handlers (addHandler h l)).
Proof.
  intros Hnd. unfold addHandler. cbn [handlers].
  case_bool_decide as Hin; [done |].
  apply NoDup_app. split; [done | split; [| apply NoDup_singleton]].
  by intros x Hx ->%list_elem_of_singleton.
Qed.

Lemma copy_step_NoDup (T : logger) (h : nat) (l : logger) :
  NoDup (handlers l) -> NoDup (handlers (copy_step T h l)).
Proof.
  intros Hnd%(addHandler_NoDup h). unfold copy_step.
  by destruct (Z.eqb (level (addHandler h l)) NOTSET).
Qed.

Lemma copy_steps_NoDup (T : logger) (hs : list nat) : forall l,
  NoDup (handlers l) ->
  NoDup (handlers (foldl (fun l h => copy_step T h l) l hs)).
Proof.
  induction hs as [|h hs IH]; intros l Hnd; [done |].
  cbn [foldl]. by apply IH, copy_step_NoDup.
Qed.

End copy_frame.

(** X18: the copy of lines 94-103 touches the loggers it is told to and
    no other: a logger that [get_extra_loggers] does not name is as it
    was, and so is the 'prefect.extra' logger itself, named or not. *)
Theorem other_loggers_untouched (settings : LoggingSettings)
    (reg : gmap string logger) :
  getLogger "prefect.extra" (copy_to_extra_loggers settings reg)
  = getLogger "prefect.extra" reg
  /\ forall n, n ∉ get_extra_loggers settings ->
       getLogger n (copy_to_extra_loggers settings reg) = getLogger n reg.
Proof.
  unfold copy_to_extra_loggers.
  enough (forall names reg',
            getLogger "prefect.extra" (foldl copy_extra reg' names)
            = getLogger "prefect.extra" reg'
            /\ forall n, n ∉ names ->
                 getLogger n (foldl copy_extra reg' names) = getLogger n reg')
    as Hgen.
  { destruct (Hgen (get_extra_loggers settings)
                (<["prefect.extra" := getLogger "prefect.extra" reg]> reg))
      as [Ht Hother].
    split.
    - by rewrite Ht, getLogger_register.
    - intros n Hn. by rewrite (Hother n Hn), getLogger_register. }
  induction names as [|name names IH]; intros reg'; [done |].
  cbn [foldl].
  destruct (copy_extra_fields reg' name _ eq_refl) as (Ht & Hother & _).
  destruct (IH (copy_extra reg' name)) as [Ht' Hother'].
  split.
  - by rewrite Ht', Ht.
  - intros n [Hne Hn]%not_elem_of_cons.
    by rewrite (Hother' n Hn), (Hother n Hne).
Qed.

Lemma other_loggers_untouched_witness :
  getLogger "urllib3" (copy_to_extra_loggers Example.app_settings Example.full_extra)
  = getLogger "urllib3" Example.full_extra.
Proof.
  refine (proj2 (other_loggers_untouched Example.app_settings Example.full_extra)
                "urllib3" _).
  intros Hin. apply list_elem_of_singleton in Hin. discriminate.
Defined.

(** X19: the copy never attaches a handler twice: if no logger has a
    handler twice before it, none has after it, even when an extra logger
    already has some of the handlers or is named more than once. *)
Theorem handlers_attached_once (settings : LoggingSettings)
    (reg : gmap string logger) :
  (forall n, NoDup (handlers (getLogger n reg))) ->
  forall n, NoDup (handlers (getLogger n (copy_to_extra_loggers settings reg))).
Proof.
  intros Hinv. unfold copy_to_extra_loggers.
  enough (forall names reg',
            (forall n, NoDup (handlers (getLogger n reg'))) ->
            forall n, NoDup (handlers (getLogger n (foldl copy_extra reg' names))))
    as Hgen.
  { apply Hgen. intros n. by rewrite getLogger_register. }
  induction names as [|name names IH]; intros reg' Hinv'; [done |].
  cbn [foldl]. apply IH. intros n.
  destruct (copy_extra_fields reg' name _ eq_refl) as (_ & Hother & Hself).
  destruct (decide (n = name)) as [->|Hne].
  - rewrite Hself. by apply copy_steps_NoDup.
  - by rewrite (Hother n Hne).
Qed.

Lemma handlers_attached_once_witness :
  let settings :=
    Example.settings_at Example.yml "app_" [] ["vendor.lib"; "vendor.lib"] in
  let reg : gmap string logger :=
    <["vendor.lib" := {| handlers := [2]; level := 20; propagate := true |}]>
      Example.full_extra in
  NoDup (handlers (getLogger "vendor.lib" (copy_to_extra_loggers settings reg))).
Proof.
  intros settings reg.
  refine (handlers_attached_once settings reg _ "vendor.lib").
  intros n. subst reg. unfold getLogger, Example.full_extra.
  destruct (decide (n = "vendor.lib")) as [->|Hv].
  - rewrite lookup_insert_eq. apply NoDup_singleton.
  - rewrite lookup_insert_ne by done.
    destruct (decide (n = "prefect.extra")) as [->|He].
    + rewrite lookup_singleton_eq. simpl.
      apply NoDup_cons. split; [| apply NoDup_singleton].
      intros Hin. apply list_elem_of_singleton in Hin. discriminate.
    + rewrite lookup_singleton_ne by done. apply NoDup_nil_2.
Defined.

(** ** The stored configuration *)

(** X20: [logging.config.dictConfig] raising for a mapping without
    ['version'], the stored configuration is never the empty mapping: if
    it is not before a sequence of calls, it is not after it.  The guard
    of line 77, which tests the stored configuration for truth, then
    tells whether a configuration has been stored. *)
Theorem stored_configuration_never_empty (calls : list (host * LoggingSettings))
    (w : world) :
  Forall (fun c => rejects_without_version c.1) calls ->
  PROCESS_LOGGING_CONFIG w <> Some [] ->
  PROCESS_LOGGING_CONFIG (run_calls calls w) <> Some [].
Proof.
  intros Hcalls. revert w.
  induction Hcalls as [|[H settings] calls Hrej _ IH]; intros w Hw; [done |].
  rewrite run_calls_cons. apply IH. simpl in Hrej.
  unfold setup_logging.
  destruct (resolved_config H settings) as [e|config]; [done |].
  destruct (truthy (PROCESS_LOGGING_CONFIG w)).
  - by destruct (config_diff _ config) as [e|[|d diff]].
  - unfold apply_config.
    destruct (dictConfig H config (loggers w)) as [ok reg] eqn:Hdc.
    destruct ok; [| done]. cbn. intros [= ->].
    pose proof (Hrej [] (loggers w) eq_refl) as Hno.
    rewrite Hdc in Hno. discriminate.
Qed.

Lemma stored_configuration_never_empty_witness :
  let calls :=
    [(checking_host (VDict []) ∅, Example.app_settings);
     (checking_host (VDict Example.version1) Example.full_extra,
      Example.app_settings);
     (checking_host (VDict []) ∅, Example.app_settings)] in
  PROCESS_LOGGING_CONFIG (run_calls calls Example.start) <> Some [].
Proof.
  intros calls.
  refine (stored_configuration_never_empty calls Example.start _ _).
  - repeat constructor; apply checking_host_rejects.
  - discriminate.
Defined.
